(** * Balance-consistency engine of the expense tracker

    A shallow embedding of [expenses/models.py], [expenses/utils.py] and
    [TransferSerializer.validate] of [expenses/serializers.py], and the
    properties of the cached account balances proved about it.

    Modelling conventions.
    - Money is a [Decimal] with two fractional digits; it is represented
      by its number of hundredths, an unbounded [Z] (1000.00 is 100000).
      The ten digits of an [amount] are checked where [full_clean]
      checks them.  A balance update is exact; the twelve digits of
      [Account.balance] are a condition ([decimal_12_2],
      [balances_fit]) of the statements that promise that a mutation
      goes through.
    - Primary keys are the database's auto-increment ids (1, 2, ...), so
      they are [positive]; an instance that was never saved has
      [pk = None].  An inserted row gets an id that is not in use (here
      one past the largest stored); which one is not part of what is
      stated about the ids of new rows.  The Python tests [if self.pk] and
      [if self.account_id and ...] are therefore tests for "is not None",
      and the foreign keys and the amount of an instance are set.
    - A table is a finite map from primary keys to rows.  A related
      object ([self.account], ...) is the row read from the table.
      Timestamps are left out.
    - Code that raises is a state-and-error monad over the database; the
      state reached at the [raise] is kept, so that
      [transaction.atomic] can be modelled as what discards it.
    - One mutation runs at a time: [select_for_update] selects rows, its
      locks have nothing to exclude. *)

From stdpp Require Import gmap strings list fin_maps.
From Stdlib Require Import ZArith Lia Ascii.

Local Open Scope Z_scope.

(** ** Rows *)

Record Account := mkAccount {
  acc_user : positive;
  acc_name : string;
  balance : Z;
  is_system : bool
}.

Record Category := mkCategory {
  cat_user : positive;
  cat_name : string
}.

Record Expense := mkExpense {
  exp_pk : option positive;
  exp_user : positive;
  exp_account : positive;
  exp_category : positive;
  exp_amount : Z;
  exp_description : string
}.

Record Income := mkIncome {
  inc_pk : option positive;
  inc_user : positive;
  inc_account : positive;
  inc_amount : Z;
  inc_description : string
}.

Record Transfer := mkTransfer {
  tr_pk : option positive;
  tr_user : positive;
  from_account : positive;
  to_account : positive;
  tr_amount : Z
}.

Record DB := mkDB {
  users : gset positive;
  accounts : gmap positive Account;
  categories : gmap positive Category;
  expenses : gmap positive Expense;
  incomes : gmap positive Income;
  transfers : gmap positive Transfer
}.

Definition set_accounts (f : gmap positive Account → gmap positive Account)
    (db : DB) : DB :=
  mkDB (users db) (f (accounts db)) (categories db) (expenses db) (incomes db)
       (transfers db).

Definition set_expenses (f : gmap positive Expense → gmap positive Expense)
    (db : DB) : DB :=
  mkDB (users db) (accounts db) (categories db) (f (expenses db)) (incomes db)
       (transfers db).

Definition set_incomes (f : gmap positive Income → gmap positive Income)
    (db : DB) : DB :=
  mkDB (users db) (accounts db) (categories db) (expenses db) (f (incomes db))
       (transfers db).

Definition set_transfers (f : gmap positive Transfer → gmap positive Transfer)
    (db : DB) : DB :=
  mkDB (users db) (accounts db) (categories db) (expenses db) (incomes db)
       (f (transfers db)).

(** ** Exceptions and the database monad *)

(** A [ValidationError] carries its messages, each under the name of the
    field it is about, or under [NON_FIELD_ERRORS]. *)
Definition errors : Type := list (string * string).
Definition NON_FIELD_ERRORS : string := "__all__".

Inductive error :=
| ValidationError (messages : errors)
| DoesNotExist
| MultipleObjectsReturned
| IntegrityError
| ValueError.

Definition M (A : Type) : Type := DB → (error + A) * DB.

Definition raise {A} (e : error) : M A := λ db, (inl e, db).

#[export] Instance M_ret : MRet M := λ A a db, (inr a, db).
#[export] Instance M_bind : MBind M := λ A B k m db,
  match m db with
  | (inl e, db') => (inl e, db')
  | (inr a, db') => k a db'
  end.

Definition get_db : M DB := λ db, (inr db, db).
Definition modify (f : DB → DB) : M unit := λ db, (inr tt, f db).

(** [with transaction.atomic(): body] -- an exception leaving the block
    rolls every write of the block back. *)
Definition atomic {A} (body : M A) : M A :=
  λ db, match body db with
        | (inl e, _) => (inl e, db)
        | (inr a, db') => (inr a, db')
        end.

(** A query that only reads: it raises or returns, and writes nothing. *)
Definition query {A} (q : DB → error + A) : M A := λ db, (q db, db).

(** [Model.objects.get(pk=k)] *)
Definition get_row {R} (table : DB → gmap positive R) (k : positive) : M R :=
  λ db, match table db !! k with
        | Some r => (inr r, db)
        | None => (inl DoesNotExist, db)
        end.

(** [Account.objects.filter(pk=k).update(balance=F('balance') + delta)]:
    one UPDATE statement; it changes no row when [k] is absent. *)
Definition add_balance (delta : Z) (a : Account) : Account :=
  mkAccount (acc_user a) (acc_name a) (balance a + delta) (is_system a).

Definition adjust (k : positive) (delta : Z)
    (accs : gmap positive Account) : gmap positive Account :=
  alter (add_balance delta) k accs.

Definition update_balance (k : positive) (delta : Z) : M unit :=
  modify (set_accounts (adjust k delta)).

(** The id the database gives to an inserted row: one past the largest
    id of the table, 1 in an empty table. *)
Definition next_pk {R} (m : gmap positive R) : positive :=
  foldr (λ k n, Pos.max (Pos.succ k) n) 1%positive (map_to_list m).*1.

(** ** Validation: [Model.full_clean]

    [full_clean] runs the field validators declared with the model's
    fields ([clean_fields]), then the model's own [clean], then the
    checks of [Meta.constraints] on the fields that have no error so
    far.  Each step's [ValidationError] is collected and one
    [ValidationError] with all messages is raised at the end; any other
    exception leaves [full_clean] at once. *)

(** [DecimalField(max_digits=10, decimal_places=2)] *)
Definition decimal_10_2 (x : Z) : bool := Z.abs x <? 10 ^ 10.

Definition field_error (key msg : string) (ok : bool) : errors :=
  if ok then [] else [(key, msg)].

Definition fk_exists {R} (key : string) (table : gmap positive R)
    (k : positive) : errors :=
  field_error key "instance does not exist." (bool_decide (is_Some (table !! k))).

Definition user_exists (db : DB) (u : positive) : errors :=
  field_error "user" "instance does not exist." (bool_decide (u ∈ users db)).

Definition amount_digits (x : Z) : errors :=
  field_error "amount" "Ensure that there are no more than 10 digits in total."
    (decimal_10_2 x).

Definition not_blank (key : string) (s : string) : errors :=
  field_error key "This field cannot be blank." (negb (String.eqb s EmptyString)).

(** A [CheckConstraint] over [fields]; it is skipped when one of its
    fields already has an error. *)
Definition check_constraint (name : string) (fields : list string)
    (holds : bool) (failed : list string) : errors :=
  if bool_decide (Exists (λ f, f ∈ failed) fields) then []
  else field_error NON_FIELD_ERRORS name holds.

Definition finish (errs : errors) : error + unit :=
  match errs with
  | [] => inr tt
  | _ => inl (ValidationError errs)
  end.

Definition full_clean (clean_fields : errors) (clean : error + unit)
    (validate_constraints : list string → errors) : error + unit :=
  match clean with
  | inr _ =>
      finish (clean_fields ++ validate_constraints clean_fields.*1)
  | inl (ValidationError e2) =>
      let errs := clean_fields ++ e2 in
      finish (errs ++ validate_constraints errs.*1)
  | inl e => inl e
  end.

(** [self.account], [self.category], ...: the related row is read from
    the database; [DoesNotExist] when there is none. *)
Definition related {R} (table : gmap positive R) (k : positive) : error + R :=
  match table !! k with
  | Some r => inr r
  | None => inl DoesNotExist
  end.

Definition invalid {A} (key msg : string) : error + A :=
  inl (ValidationError [(key, msg)]).

(** ** Expense *)

Definition Expense_clean_fields (self : Expense) (db : DB) : errors :=
  user_exists db (exp_user self)
  ++ fk_exists "account" (accounts db) (exp_account self)
  ++ fk_exists "category" (categories db) (exp_category self)
  ++ amount_digits (exp_amount self)
  ++ not_blank "description" (exp_description self).

Definition Expense_clean (self : Expense) (db : DB) : error + unit :=
  match related (accounts db) (exp_account self) with
  | inl e => inl e
  | inr account =>
      if bool_decide (acc_user account ≠ exp_user self) then
        invalid "account" "Account must belong to the same user."
      else
        match related (categories db) (exp_category self) with
        | inl e => inl e
        | inr category =>
            if bool_decide (cat_user category ≠ exp_user self) then
              invalid "category" "Category must belong to the same user."
            else if is_system account then
              invalid "account" "System account cannot be used for expenses."
            else inr tt
        end
  end.

(** [Meta.constraints]: [expense_amount_gt_0] *)
Definition Expense_constraints (self : Expense) : list string → errors :=
  check_constraint "expense_amount_gt_0" ["amount"] (0 <? exp_amount self).

Definition Expense_full_clean (self : Expense) (db : DB) : error + unit :=
  full_clean (Expense_clean_fields self db) (Expense_clean self db)
    (Expense_constraints self).

(** [super().save()]: UPDATE of the row [pk], INSERT under a new id for
    an instance without [pk]. *)
Definition Expense_super_save (self : Expense) : M Expense := λ db,
  match exp_pk self with
  | Some k => (inr self, set_expenses (insert k self) db)
  | None =>
      let k := next_pk (expenses db) in
      let row := mkExpense (Some k) (exp_user self) (exp_account self)
                   (exp_category self) (exp_amount self)
                   (exp_description self) in
      (inr row, set_expenses (insert k row) db)
  end.

(** [super().delete()] *)
Definition Expense_super_delete (self : Expense) : M unit :=
  match exp_pk self with
  | Some k => modify (set_expenses (delete k))
  | None => raise ValueError
  end.

(** The balance writes of [Expense.save], lines 70-79. *)
Definition Expense_save_balances (self : Expense) : M unit :=
  match exp_pk self with
  | Some k =>
      prev ← get_row expenses k;
      if bool_decide (exp_account prev ≠ exp_account self) then
        update_balance (exp_account prev) (exp_amount prev);;
        update_balance (exp_account self) (- exp_amount self)
      else
        let delta := exp_amount self - exp_amount prev in
        update_balance (exp_account self) (- delta)
  | None =>
      update_balance (exp_account self) (- exp_amount self)
  end.

Definition Expense_save (self : Expense) : M Expense :=
  query (Expense_full_clean self);;
  atomic (Expense_save_balances self;; Expense_super_save self).

Definition Expense_delete (self : Expense) : M unit :=
  atomic (update_balance (exp_account self) (exp_amount self);;
          Expense_super_delete self).

(** ** Income *)

Definition Income_clean_fields (self : Income) (db : DB) : errors :=
  user_exists db (inc_user self)
  ++ fk_exists "account" (accounts db) (inc_account self)
  ++ amount_digits (inc_amount self)
  ++ not_blank "description" (inc_description self).

Definition Income_clean (self : Income) (db : DB) : error + unit :=
  match related (accounts db) (inc_account self) with
  | inl e => inl e
  | inr account =>
      if bool_decide (acc_user account ≠ inc_user self) then
        invalid "account" "Account must belong to the same user."
      else if is_system account then
        invalid "account" "System account cannot be used for incomes."
      else inr tt
  end.

(** [Meta.constraints]: [income_amount_gt_0] *)
Definition Income_constraints (self : Income) : list string → errors :=
  check_constraint "income_amount_gt_0" ["amount"] (0 <? inc_amount self).

Definition Income_full_clean (self : Income) (db : DB) : error + unit :=
  full_clean (Income_clean_fields self db) (Income_clean self db)
    (Income_constraints self).

Definition Income_super_save (self : Income) : M Income := λ db,
  match inc_pk self with
  | Some k => (inr self, set_incomes (insert k self) db)
  | None =>
      let k := next_pk (incomes db) in
      let row := mkIncome (Some k) (inc_user self) (inc_account self)
                   (inc_amount self) (inc_description self) in
      (inr row, set_incomes (insert k row) db)
  end.

Definition Income_super_delete (self : Income) : M unit :=
  match inc_pk self with
  | Some k => modify (set_incomes (delete k))
  | None => raise ValueError
  end.

(** The balance writes of [Income.save], lines 112-121. *)
Definition Income_save_balances (self : Income) : M unit :=
  match inc_pk self with
  | Some k =>
      prev ← get_row incomes k;
      if bool_decide (inc_account prev ≠ inc_account self) then
        update_balance (inc_account prev) (- inc_amount prev);;
        update_balance (inc_account self) (inc_amount self)
      else
        let delta := inc_amount self - inc_amount prev in
        update_balance (inc_account self) delta
  | None =>
      update_balance (inc_account self) (inc_amount self)
  end.

Definition Income_save (self : Income) : M Income :=
  query (Income_full_clean self);;
  atomic (Income_save_balances self;; Income_super_save self).

Definition Income_delete (self : Income) : M unit :=
  atomic (update_balance (inc_account self) (- inc_amount self);;
          Income_super_delete self).

(** ** Transfer *)

Definition Transfer_clean_fields (self : Transfer) (db : DB) : errors :=
  user_exists db (tr_user self)
  ++ fk_exists "from_account" (accounts db) (from_account self)
  ++ fk_exists "to_account" (accounts db) (to_account self)
  ++ amount_digits (tr_amount self).

Definition Transfer_clean (self : Transfer) (db : DB) : error + unit :=
  if tr_amount self <=? 0 then
    invalid "amount" "Amount must be > 0."
  else if bool_decide (from_account self = to_account self) then
    invalid NON_FIELD_ERRORS "from_account and to_account must be different."
  else
    match related (accounts db) (from_account self) with
    | inl e => inl e
    | inr from_acct =>
        if bool_decide (acc_user from_acct ≠ tr_user self) then
          invalid "from_account" "Account must belong to the same user."
        else
          match related (accounts db) (to_account self) with
          | inl e => inl e
          | inr to_acct =>
              if bool_decide (acc_user to_acct ≠ tr_user self) then
                invalid "to_account" "Account must belong to the same user."
              else inr tt
          end
    end.

(** [Meta.constraints]: [transfer_amount_gt_0],
    [transfer_from_to_different] *)
Definition Transfer_constraints (self : Transfer) (failed : list string)
    : errors :=
  check_constraint "transfer_amount_gt_0" ["amount"]
    (0 <? tr_amount self) failed
  ++ check_constraint "transfer_from_to_different"
       ["from_account"; "to_account"]
       (bool_decide (from_account self ≠ to_account self)) failed.

Definition Transfer_full_clean (self : Transfer) (db : DB) : error + unit :=
  full_clean (Transfer_clean_fields self db) (Transfer_clean self db)
    (Transfer_constraints self).

Definition Transfer_super_save (self : Transfer) : M Transfer := λ db,
  match tr_pk self with
  | Some k => (inr self, set_transfers (insert k self) db)
  | None =>
      let k := next_pk (transfers db) in
      let row := mkTransfer (Some k) (tr_user self) (from_account self)
                   (to_account self) (tr_amount self) in
      (inr row, set_transfers (insert k row) db)
  end.

(** [super().delete()] *)
Definition Transfer_super_delete (self : Transfer) : M unit :=
  match tr_pk self with
  | Some k => modify (set_transfers (delete k))
  | None => raise ValueError
  end.

Definition _reverse_effect (prev : Transfer) : M unit :=
  update_balance (from_account prev) (tr_amount prev);;
  update_balance (to_account prev) (- tr_amount prev).

Definition _apply_effect (self : Transfer) : M unit :=
  update_balance (from_account self) (- tr_amount self);;
  update_balance (to_account self) (tr_amount self).

(** [Account.objects.select_for_update().filter(pk__in=[a, b])]: the
    rows whose id is one of the two.  (The row locks themselves have no
    meaning for one transaction running alone.) *)
Definition select_for_update_in (a b : positive)
    (accs : gmap positive Account) : gmap positive Account :=
  filter (λ kv, kv.1 = a ∨ kv.1 = b) accs.

Definition insufficient_funds : error :=
  ValidationError [("amount", "Insufficient funds in from_account.")].

(** The body of the [with transaction.atomic()] block of
    [Transfer.save], lines 169-194.  [prev] is bound only on the update
    path, as in the source. *)
Definition Transfer_save_body (self : Transfer) : M Transfer :=
  db ← get_db;
  let locked := select_for_update_in (from_account self) (to_account self)
                  (accounts db) in
  if bool_decide (size locked ≠ 2%nat) then
    raise (ValidationError [(NON_FIELD_ERRORS, "Both accounts must exist.")])
  else
    prev ← match tr_pk self with
           | Some k =>
               prev ← get_row transfers k;
               _reverse_effect prev;;
               mret (Some prev)
           | None => mret None
           end;
    from_acct ← get_row accounts (from_account self);
    let allow_overdraft := is_system from_acct in
    if negb allow_overdraft && (balance from_acct <? tr_amount self) then
      match prev with
      | Some prev =>
          update_balance (from_account prev) (- tr_amount prev);;
          update_balance (to_account prev) (tr_amount prev)
      | None => mret tt
      end;;
      raise insufficient_funds
    else
      _apply_effect self;;
      Transfer_super_save self.

Definition Transfer_save (self : Transfer) : M Transfer :=
  query (Transfer_full_clean self);;
  atomic (Transfer_save_body self).

(** [Transfer.objects.get(pk=self.pk)] finds no row for an instance
    without id. *)
Definition Transfer_delete (self : Transfer) : M unit :=
  atomic (
    prev ← match tr_pk self with
           | Some k => get_row transfers k
           | None => raise DoesNotExist
           end;
    _reverse_effect prev;;
    Transfer_super_delete self).

(** ** The external account: [expenses/utils.py] *)

(** [Account.objects.get(user=user, is_system=True)] *)
Definition Account_get (user : positive) (system : bool)
    : DB → error + positive * Account := λ db,
  match map_to_list
          (filter (λ kv, acc_user kv.2 = user ∧ is_system kv.2 = system)
                  (accounts db)) with
  | [] => inl DoesNotExist
  | [row] => inr row
  | _ :: _ :: _ => inl MultipleObjectsReturned
  end.

(** [unique_account_name_per_user] of [Account.Meta.constraints], as the
    database checks it when a row is inserted. *)
Definition unique_account_name_per_user (new : Account)
    (accs : gmap positive Account) : bool :=
  bool_decide (map_Forall
    (λ _ a, ¬ (acc_user a = acc_user new ∧ acc_name a = acc_name new)) accs).

(** [Account.objects.create(...)]: an INSERT, refused with
    [IntegrityError] when the user row is missing or the name is taken. *)
Definition Account_create (new : Account) : M (positive * Account) := λ db,
  if bool_decide (acc_user new ∈ users db)
     && unique_account_name_per_user new (accounts db) then
    let k := next_pk (accounts db) in
    (inr (k, new), set_accounts (insert k new) db)
  else (inl IntegrityError, db).

(** [Account.objects.get_or_create(user=user, is_system=system,
    defaults={"name": name, "balance": bal})]: the row when there is
    one; else it is created, and when the INSERT is refused the lookup
    is tried once more before the [IntegrityError] is raised again. *)
Definition Account_get_or_create (user : positive) (system : bool)
    (name : string) (bal : Z) : M (positive * Account * bool) := λ db,
  match Account_get user system db with
  | inr row => (inr (row, false), db)
  | inl DoesNotExist =>
      match atomic (Account_create (mkAccount user name bal system)) db with
      | (inr row, db') => (inr (row, true), db')
      | (inl IntegrityError, db') =>
          match Account_get user system db' with
          | inr row => (inr (row, false), db')
          | inl DoesNotExist => (inl IntegrityError, db')
          | inl e => (inl e, db')
          end
      | (inl e, db') => (inl e, db')
      end
  | inl e => (inl e, db)
  end.

Definition get_external_account (user : positive) : M (positive * Account) :=
  r ← Account_get_or_create user true "External (System)" 0;
  mret r.1.

(** ** [TransferSerializer.validate]: [expenses/serializers.py] *)

(** An account as the serializer sees it: the instance its primary-key
    field resolved, with its id. *)
Definition AccountObj : Type := positive * Account.

Record TransferAttrs := mkAttrs {
  attr_from_account : option AccountObj;
  attr_to_account : option AccountObj;
  attr_amount : option Z
}.

(** [attrs.get(name, getattr(self.instance, name, None))] *)
Definition attr_or_instance {A} (attr : option A)
    (instance : option TransferAttrs) (field : TransferAttrs → option A)
    : option A :=
  match attr with
  | Some v => Some v
  | None => instance ≫= field
  end.

Definition required (name : string) {A} (val : option A) : errors :=
  match val with
  | None => [(name, "This field is required.")]
  | Some _ => []
  end.

Definition obj_is_system (a : option AccountObj) : bool :=
  match a with
  | Some (_, acc) => is_system acc
  | None => false
  end.

Definition serializer_error {A} (key msg : string) : error + A :=
  inl (ValidationError [(key, msg)]).

(** [user] is [request.user.id], [instance] the transfer being edited
    ([None] on create), [allow_system] the serializer context's flag. *)
Definition TransferSerializer_validate (user : positive)
    (instance : option TransferAttrs) (allow_system : bool)
    (attrs : TransferAttrs) : error + TransferAttrs :=
  let from_acct := attr_or_instance (attr_from_account attrs) instance
                     attr_from_account in
  let to_acct := attr_or_instance (attr_to_account attrs) instance
                   attr_to_account in
  let amount := attr_or_instance (attr_amount attrs) instance attr_amount in
  let missing :=
    match instance with
    | None => required "from_account" from_acct
              ++ required "to_account" to_acct
              ++ required "amount" amount
    | Some _ => []
    end in
  match missing with
  | _ :: _ => inl (ValidationError missing)
  | [] =>
  if match amount with None => true | Some a => a <=? 0 end then
    serializer_error "amount" "Amount must be greater than 0."
  else if match from_acct, to_acct with
          | Some (f, _), Some (t, _) => bool_decide (f = t)
          | _, _ => false
          end then
    serializer_error NON_FIELD_ERRORS
      "from_account and to_account must be different."
  else if match from_acct with
          | Some (_, a) => bool_decide (acc_user a ≠ user)
          | None => false
          end then
    serializer_error "from_account" "Account does not belong to you."
  else if match to_acct with
          | Some (_, a) => bool_decide (acc_user a ≠ user)
          | None => false
          end then
    serializer_error "to_account" "Account does not belong to you."
  else if (obj_is_system from_acct || obj_is_system to_acct)
          && negb allow_system then
    serializer_error NON_FIELD_ERRORS
      "System accounts cannot be used in regular transfers."
  else inr attrs
  end.

(** ** Notions used in the statements *)

(** What [Transfer.clean] asks of an instance. *)
Record Transfer_valid (self : Transfer) (db : DB) (fa ta : Account) : Prop := {
  tv_from : accounts db !! from_account self = Some fa;
  tv_to : accounts db !! to_account self = Some ta;
  tv_distinct : from_account self ≠ to_account self;
  tv_amount : 0 < tr_amount self;
  tv_from_user : acc_user fa = tr_user self;
  tv_to_user : acc_user ta = tr_user self
}.

(** The account table after [_reverse_effect prev], and after
    [_apply_effect self]. *)
Definition reverse_accounts (prev : Transfer)
    (accs : gmap positive Account) : gmap positive Account :=
  adjust (to_account prev) (- tr_amount prev)
    (adjust (from_account prev) (tr_amount prev) accs).

Definition apply_accounts (self : Transfer)
    (accs : gmap positive Account) : gmap positive Account :=
  adjust (to_account self) (tr_amount self)
    (adjust (from_account self) (- tr_amount self) accs).

(** The test of line 185. *)
Definition short_of_funds (from_acct : Account) (self : Transfer) : bool :=
  negb (is_system from_acct) && (balance from_acct <? tr_amount self).

(** The accounts as the funds check of [Transfer.save] reads them: with
    the stored transfer's effect taken back when [self] is an update. *)
Definition post_reversal (self : Transfer) (db : DB) : gmap positive Account :=
  match tr_pk self ≫= (λ k, transfers db !! k) with
  | Some prev => reverse_accounts prev (accounts db)
  | None => accounts db
  end.

(** [save] returned, it did not raise. *)
Definition saved (r : (error + Transfer) * DB) : Prop :=
  ∃ row db', r = (inr row, db').


(** What [Expense.clean] and [expense_amount_gt_0] ask of an instance,
    and [Income.clean] and [income_amount_gt_0]. *)
Record Expense_valid (self : Expense) (db : DB)
    (account : Account) (category : Category) : Prop := {
  ev_account : accounts db !! exp_account self = Some account;
  ev_category : categories db !! exp_category self = Some category;
  ev_account_user : acc_user account = exp_user self;
  ev_category_user : cat_user category = exp_user self;
  ev_amount : 0 < exp_amount self;
  ev_not_system : is_system account = false
}.

Record Income_valid (self : Income) (db : DB) (account : Account) : Prop := {
  iv_account : accounts db !! inc_account self = Some account;
  iv_account_user : acc_user account = inc_user self;
  iv_amount : 0 < inc_amount self;
  iv_not_system : is_system account = false
}.

(** The accounts after the balance writes of an update, as the code
    branches on them. *)
Definition Expense_update_accounts (prev self : Expense)
    (accs : gmap positive Account) : gmap positive Account :=
  if bool_decide (exp_account prev ≠ exp_account self) then
    adjust (exp_account self) (- exp_amount self)
      (adjust (exp_account prev) (exp_amount prev) accs)
  else adjust (exp_account self) (- (exp_amount self - exp_amount prev)) accs.

Definition Income_update_accounts (prev self : Income)
    (accs : gmap positive Account) : gmap positive Account :=
  if bool_decide (inc_account prev ≠ inc_account self) then
    adjust (inc_account self) (inc_amount self)
      (adjust (inc_account prev) (- inc_amount prev) accs)
  else adjust (inc_account self) (inc_amount self - inc_amount prev) accs.

(** The update rule in the words of the specification: take the old
    amount back from the old account, then apply the new amount to the
    new account, whether or not the two accounts are the same. *)
Definition expense_reverse_then_reapply (prev self : Expense)
    (accs : gmap positive Account) : gmap positive Account :=
  adjust (exp_account self) (- exp_amount self)
    (adjust (exp_account prev) (exp_amount prev) accs).

Definition income_reverse_then_reapply (prev self : Income)
    (accs : gmap positive Account) : gmap positive Account :=
  adjust (inc_account self) (inc_amount self)
    (adjust (inc_account prev) (- inc_amount prev) accs).

(** The sum of [f] over the rows of a table. *)
Definition total {R} (f : R → Z) (m : gmap positive R) : Z :=
  map_fold (λ _ r s, f r + s) 0 m.

(** What one entry moves on account [a]. *)
Definition expense_on (a : positive) (e : Expense) : Z :=
  if decide (exp_account e = a) then exp_amount e else 0.
Definition income_on (a : positive) (i : Income) : Z :=
  if decide (inc_account i = a) then inc_amount i else 0.
Definition transfer_in (a : positive) (t : Transfer) : Z :=
  if decide (to_account t = a) then tr_amount t else 0.
Definition transfer_out (a : positive) (t : Transfer) : Z :=
  if decide (from_account t = a) then tr_amount t else 0.

(** incomes + transfers in - expenses - transfers out, over the stored
    entries that reference account [a] *)
Definition ledger_sum (db : DB) (a : positive) : Z :=
  total (income_on a) (incomes db) + total (transfer_in a) (transfers db)
  - total (expense_on a) (expenses db) - total (transfer_out a) (transfers db).

(** The invariant: every cached balance is the ledger sum. *)
Definition consistent (db : DB) : Prop :=
  map_Forall (λ a acc, balance acc = ledger_sum db a) (accounts db).

(** The same with an opening balance per account, for accounts that
    did not start at 0.00. *)
Definition consistent_from (opening : positive → Z) (db : DB) : Prop :=
  map_Forall (λ a acc, balance acc = opening a + ledger_sum db a)
    (accounts db).

(** The mutations of ledger entries. *)
Inductive mutation :=
| SaveExpense (self : Expense)
| DeleteExpense (self : Expense)
| SaveIncome (self : Income)
| DeleteIncome (self : Income)
| SaveTransfer (self : Transfer)
| DeleteTransfer (self : Transfer).

(** The database a mutation leaves, whether it returned or raised. *)
Definition run_mutation (m : mutation) (db : DB) : DB :=
  match m with
  | SaveExpense self => (Expense_save self db).2
  | DeleteExpense self => (Expense_delete self db).2
  | SaveIncome self => (Income_save self db).2
  | DeleteIncome self => (Income_delete self db).2
  | SaveTransfer self => (Transfer_save self db).2
  | DeleteTransfer self => (Transfer_delete self db).2
  end.

(** [Expense.delete] and [Income.delete] take the account and the amount
    from the instance they are called on.  [loaded] says that the
    instance carries what is stored under its id, as it does when a view
    has just fetched it; the other mutations read the stored row
    themselves. *)
Definition loaded (m : mutation) (db : DB) : Prop :=
  match m with
  | DeleteExpense self =>
      ∃ k row, exp_pk self = Some k ∧ expenses db !! k = Some row ∧
        exp_account row = exp_account self ∧ exp_amount row = exp_amount self
  | DeleteIncome self =>
      ∃ k row, inc_pk self = Some k ∧ incomes db !! k = Some row ∧
        inc_account row = inc_account self ∧ inc_amount row = inc_amount self
  | _ => True
  end.

(** Every stored entry names accounts that exist: the foreign keys of
    the entry tables, declared with [on_delete=PROTECT]. *)
Definition referential (db : DB) : Prop :=
  map_Forall (λ _ e, is_Some (accounts db !! exp_account e)) (expenses db) ∧
  map_Forall (λ _ i, is_Some (accounts db !! inc_account i)) (incomes db) ∧
  map_Forall (λ _ t, is_Some (accounts db !! from_account t) ∧
                     is_Some (accounts db !! to_account t)) (transfers db).

(** An account made through [AccountViewSet]: [AccountSerializer] takes
    the name and has [balance] read-only, so the row gets the defaults of
    the model, balance 0.00 and [is_system=False]; the view adds the
    user. *)
Definition AccountViewSet_create (user : positive) (name : string)
    : M (positive * Account) :=
  Account_create (mkAccount user name 0 false).

(** The databases the application gets to from one without accounts and
    entries: users and categories come and go (they carry no balance),
    accounts are opened through the view or as external accounts, and
    ledger entries are saved and deleted. *)
Inductive reachable : DB → Prop :=
| reachable_start us cats : reachable (mkDB us ∅ cats ∅ ∅ ∅)
| reachable_registry db us cats :
    reachable db →
    reachable (mkDB us (accounts db) cats (expenses db) (incomes db)
                 (transfers db))
| reachable_account db user name :
    reachable db → reachable (AccountViewSet_create user name db).2
| reachable_external db user :
    reachable db → reachable (get_external_account user db).2
| reachable_mutation db m :
    reachable db → loaded m db → reachable (run_mutation m db).

(** The accounts [TransferSerializer.validate] checks: those of the
    request, else those of the transfer being edited. *)
Definition resolved_from (instance : option TransferAttrs)
    (attrs : TransferAttrs) : option AccountObj :=
  attr_or_instance (attr_from_account attrs) instance attr_from_account.

Definition resolved_to (instance : option TransferAttrs)
    (attrs : TransferAttrs) : option AccountObj :=
  attr_or_instance (attr_to_account attrs) instance attr_to_account.

(** The row [get_external_account] inserts. *)
Definition external_account (user : positive) : Account :=
  mkAccount user "External (System)" 0 true.

(** ** The digits of a balance

    [Account.balance] is a [DecimalField(max_digits=12,
    decimal_places=2)], and [amount] of the entries one of ten digits.
    The balance updates of the embedding are exact arithmetic on
    hundredths.  The column and the reading of a row hold twelve digits
    only, and a balance beyond them makes the [UPDATE] or the next read
    of the account raise.  A statement that promises that a mutation
    goes through is therefore made for balances that stay within the
    column: those stored, and those the mutation writes. *)
Definition decimal_12_2 (x : Z) : bool := Z.abs x <? 10 ^ 12.

Definition balances_fit (accs : gmap positive Account) : Prop :=
  map_Forall (λ _ acc, decimal_12_2 (balance acc) = true) accs.

(** ** Example data *)

(** A user who named an account of their own "External (System)". *)
Definition db_name_taken : DB :=
  mkDB {[ 1%positive ]}
       {[ 1%positive := mkAccount 1 "External (System)" 0 false ]} ∅ ∅ ∅ ∅.

(** User 1 with account A (1000.00, from a salary) and account B
    (200.00, from a gift), and one category. *)
Definition db_AB : DB :=
  mkDB {[ 1%positive ]}
       {[ 1%positive := mkAccount 1 "A" 100000 false;
          2%positive := mkAccount 1 "B" 20000 false ]}
       {[ 1%positive := mkCategory 1 "Food" ]}
       ∅
       {[ 1%positive := mkIncome (Some 1%positive) 1 1 100000 "Salary";
          2%positive := mkIncome (Some 2%positive) 1 2 20000 "Gift" ]}
       ∅.

(** 300.00 from A to B, before and after it is saved. *)
Definition transfer300 : Transfer := mkTransfer None 1 1 2 30000.
Definition stored300 : Transfer := mkTransfer (Some 1%positive) 1 1 2 30000.

(** [db_AB] after the transfer of 300.00 from A to B. *)
Definition db_AB_300 : DB :=
  mkDB {[ 1%positive ]}
       {[ 1%positive := mkAccount 1 "A" 70000 false;
          2%positive := mkAccount 1 "B" 50000 false ]}
       {[ 1%positive := mkCategory 1 "Food" ]}
       ∅
       {[ 1%positive := mkIncome (Some 1%positive) 1 1 100000 "Salary";
          2%positive := mkIncome (Some 2%positive) 1 2 20000 "Gift" ]}
       {[ 1%positive := stored300 ]}.

(** Raising the stored transfer of 300.00 to 2000.00 when A, with the
    300.00 given back, holds 1000.00. *)
Definition update2000 : Transfer := mkTransfer (Some 1%positive) 1 1 2 200000.

(** Raising the stored transfer of 300.00 to exactly the 1000.00 that A
    holds once the 300.00 are given back. *)
Definition update1000 : Transfer := mkTransfer (Some 1%positive) 1 1 2 100000.

(** An expense of 100.00 on an account that held 500.00, edited to
    150.00. *)
Definition db_lunch : DB :=
  mkDB {[ 1%positive ]}
       {[ 1%positive := mkAccount 1 "A" 40000 false ]}
       {[ 1%positive := mkCategory 1 "Food" ]}
       {[ 1%positive := mkExpense (Some 1%positive) 1 1 1 10000 "Lunch" ]}
       {[ 1%positive := mkIncome (Some 1%positive) 1 1 50000 "Salary" ]}
       ∅.

(** The lunch, edited to 150.00. *)
Definition lunch150 : Expense := mkExpense (Some 1%positive) 1 1 1 15000 "Lunch".

(** A salary of 50000.00 out of an external account that holds 0.00. *)
Definition db_salary : DB :=
  mkDB {[ 1%positive ]}
       {[ 1%positive := mkAccount 1 "A" 0 false;
          2%positive := mkAccount 1 "External (System)" 0 true ]}
       ∅ ∅ ∅ ∅.

(** 50000.00 from the external account to A. *)
Definition salary : Transfer := mkTransfer None 1 2 1 5000000.

(** User 1 sending money to an account of user 2. *)
Definition db_two_users : DB :=
  mkDB {[ 1%positive; 2%positive ]}
       {[ 1%positive := mkAccount 1 "A" 100000 false;
          2%positive := mkAccount 2 "Theirs" 0 false ]}
       ∅ ∅ ∅ ∅.

(** An account A holding 500.00 and an empty account B. *)
Definition db_500 : DB :=
  mkDB {[ 1%positive ]}
       {[ 1%positive := mkAccount 1 "A" 50000 false;
          2%positive := mkAccount 1 "B" 0 false ]}
       {[ 1%positive := mkCategory 1 "Food" ]}
       ∅
       {[ 1%positive := mkIncome (Some 1%positive) 1 1 50000 "Salary" ]}
       ∅.

(** The outcome of a run and the balances of accounts 1 and 2. *)
Definition balances (r : error + unit) (db : DB) : (error + unit) * list Z :=
  (r, (λ k, from_option balance 0 (accounts db !! k)) <$> [1%positive; 2%positive]).

(** A salary of 100000000.00, one digit more than [amount] holds. *)
Definition salary_eleven_digits : Transfer := mkTransfer None 1 2 1 (10 ^ 10).

(** The lunch of [db_lunch] as it is stored, and [db_lunch] once the
    lunch is deleted. *)
Definition lunch100 : Expense := mkExpense (Some 1%positive) 1 1 1 10000 "Lunch".

Definition db_lunch_deleted : DB :=
  mkDB {[ 1%positive ]}
       {[ 1%positive := mkAccount 1 "A" 50000 false ]}
       {[ 1%positive := mkCategory 1 "Food" ]}
       ∅
       {[ 1%positive := mkIncome (Some 1%positive) 1 1 50000 "Salary" ]}
       ∅.

(** ** [ExpenseSerializer.validate] and [IncomeSerializer.validate]:
    [expenses/serializers.py] *)

(** A category as the serializer sees it. *)
Definition CategoryObj : Type := positive * Category.

(** The validated fields of an expense request; a field that the request
    does not carry is [None].  The instance being edited is given the
    same way, with every field set. *)
Record ExpenseAttrs := mkExpenseAttrs {
  eattr_account : option AccountObj;
  eattr_category : option CategoryObj;
  eattr_amount : option Z;
  eattr_description : option string
}.

Record IncomeAttrs := mkIncomeAttrs {
  iattr_account : option AccountObj;
  iattr_amount : option Z;
  iattr_description : option string
}.

(** [attrs.get(name) or getattr(self.instance, name, None)] for a model
    instance, which is true when it is there. *)
Definition attr_or {A I} (attr : option A) (instance : option I)
    (field : I → option A) : option A :=
  match attr with
  | Some v => Some v
  | None => instance ≫= field
  end.

(** The same for the amount: a [Decimal] is false when it is zero, so a
    zero in the request gives way to the instance's amount. *)
Definition amount_or {I} (attr : option Z) (instance : option I)
    (field : I → option Z) : option Z :=
  match attr with
  | Some a => if a =? 0 then instance ≫= field else Some a
  | None => instance ≫= field
  end.

Definition ExpenseSerializer_validate (user : positive)
    (instance : option ExpenseAttrs) (attrs : ExpenseAttrs)
    : error + ExpenseAttrs :=
  let account := attr_or (eattr_account attrs) instance eattr_account in
  let category := attr_or (eattr_category attrs) instance eattr_category in
  let amount := amount_or (eattr_amount attrs) instance eattr_amount in
  if match account with
     | Some (_, a) => bool_decide (acc_user a ≠ user)
     | None => false
     end then
    serializer_error "account" "Account must belong to the user."
  else if match category with
          | Some (_, c) => bool_decide (cat_user c ≠ user)
          | None => false
          end then
    serializer_error "category" "Category must belong to the user."
  else if match amount with None => true | Some a => a <=? 0 end then
    serializer_error "amount" "Amount must be positive."
  else inr attrs.

Definition IncomeSerializer_validate (user : positive)
    (instance : option IncomeAttrs) (attrs : IncomeAttrs)
    : error + IncomeAttrs :=
  let account := attr_or (iattr_account attrs) instance iattr_account in
  let amount := amount_or (iattr_amount attrs) instance iattr_amount in
  if match amount with None => true | Some a => a <=? 0 end then
    serializer_error "amount" "Amount must be > 0."
  else if match account with
          | Some (_, a) => bool_decide (acc_user a ≠ user)
          | None => false
          end then
    serializer_error "account" "Account must belong to the user."
  else inr attrs.

(** ** Creating transfers through [TransferViewSet]: [expenses/views.py]

    The requests are taken with their fields parsed ([int], [Decimal]);
    the responses are given by their status and their data. *)

Inductive response :=
| HTTP_201_CREATED (data : Transfer)
| HTTP_400_BAD_REQUEST (detail : errors)
| HTTP_404_NOT_FOUND.

(** The fields of [TransferSerializer] (the [Meta] of the class): the two
    accounts are primary keys looked up among all accounts, the amount is
    a decimal of ten digits with two places.  The errors of all fields
    are raised together. *)
Definition TransferSerializer_to_internal_value (from_pk to_pk : positive)
    (amount : Z) (db : DB) : error + TransferAttrs :=
  match accounts db !! from_pk, accounts db !! to_pk, decimal_10_2 amount with
  | Some from_acct, Some to_acct, true =>
      inr (mkAttrs (Some (from_pk, from_acct)) (Some (to_pk, to_acct))
             (Some amount))
  | _, _, _ =>
      inl (ValidationError
             (fk_exists "from_account" (accounts db) from_pk
              ++ fk_exists "to_account" (accounts db) to_pk
              ++ amount_digits amount))
  end.

(** [serializer.is_valid(raise_exception=True)] on the data of a create *)
Definition TransferSerializer_is_valid (user : positive) (allow_system : bool)
    (from_pk to_pk : positive) (amount : Z) (db : DB)
    : error + TransferAttrs :=
  match TransferSerializer_to_internal_value from_pk to_pk amount db with
  | inl e => inl e
  | inr attrs => TransferSerializer_validate user None allow_system attrs
  end.

(** [serializer.save(user=user)] of a create: the model instance is made
    of the validated data and the user, and saved.  A field left out
    would be [None] on the instance, which [full_clean] refuses. *)
Definition TransferSerializer_save (user : positive)
    (validated_data : TransferAttrs) : M Transfer :=
  match attr_from_account validated_data, attr_to_account validated_data,
        attr_amount validated_data with
  | Some (f, _), Some (t, _), Some amount =>
      Transfer_save (mkTransfer None user f t amount)
  | _, _, _ =>
      raise (ValidationError [(NON_FIELD_ERRORS, "This field cannot be null.")])
  end.

(** The course that the regular create and the salary view share:
    [get_serializer], [is_valid(raise_exception=True)], [save(user=user)]
    and the 201 response.  The validation error of the serializer becomes a
    400 response; any other exception leaves the view. *)
Definition create_transfer (user : positive) (allow_system : bool)
    (from_pk to_pk : positive) (amount : Z) : M response :=
  db ← get_db;
  match TransferSerializer_is_valid user allow_system from_pk to_pk amount
          db with
  | inl (ValidationError detail) => mret (HTTP_400_BAD_REQUEST detail)
  | inl e => raise e
  | inr validated_data =>
      transfer ← TransferSerializer_save user validated_data;
      mret (HTTP_201_CREATED transfer)
  end.

(** POST /api/transfers/: the [create] of the viewset with
    [perform_create], lines 604-605. *)
Definition TransferViewSet_create (user : positive)
    (from_pk to_pk : positive) (amount : Z) : M response :=
  create_transfer user false from_pk to_pk amount.

(** POST /api/transfers/salary/, lines 683-721. *)
Definition TransferViewSet_salary (user : positive)
    (to_account_id : positive) (amount : Z) : M response :=
  db ← get_db;
  match accounts db !! to_account_id with
  | Some to_acc =>
      if bool_decide (acc_user to_acc = user) && negb (is_system to_acc) then
        from_acc ← get_external_account user;
        create_transfer user true from_acc.1 to_account_id amount
      else mret HTTP_404_NOT_FOUND
  | None => mret HTTP_404_NOT_FOUND
  end.

(** ** The account list: [expenses/views.py]

    [OwnedQuerysetMixin.get_queryset] narrows a view's queryset to the
    rows of the requesting user; [AccountViewSet.get_queryset] narrows
    it further to the accounts that are no system accounts. *)
Definition OwnedQuerysetMixin_get_queryset {R} (owner : R → positive)
    (user : positive) (queryset : gmap positive R) : gmap positive R :=
  filter (λ kv, owner kv.2 = user) queryset.

Definition AccountViewSet_get_queryset (user : positive) (db : DB)
    : gmap positive Account :=
  filter (λ kv, is_system kv.2 = false)
    (OwnedQuerysetMixin_get_queryset acc_user user (accounts db)).

(** ** Further notions: what the stored rows always satisfy *)

(** The money held by all accounts together. *)
Definition total_balance (db : DB) : Z := total balance (accounts db).

(** Every stored row carries the id it is stored under and satisfies the
    [CheckConstraint]s of its model's [Meta.constraints]. *)
Definition rows_well_formed (db : DB) : Prop :=
  map_Forall (λ k e, exp_pk e = Some k ∧ 0 < exp_amount e) (expenses db) ∧
  map_Forall (λ k i, inc_pk i = Some k ∧ 0 < inc_amount i) (incomes db) ∧
  map_Forall (λ k t, tr_pk t = Some k ∧ 0 < tr_amount t ∧
                     from_account t ≠ to_account t) (transfers db).

(** The account [a] exists and is [user]'s. *)
Definition account_of (db : DB) (user a : positive) : Prop :=
  ∃ acc, accounts db !! a = Some acc ∧ acc_user acc = user.

(** The same, and it is no system account. *)
Definition ordinary_account_of (db : DB) (user a : positive) : Prop :=
  ∃ acc, accounts db !! a = Some acc ∧ acc_user acc = user ∧
         is_system acc = false.

(** Every stored entry is on accounts of its own user, and expenses and
    incomes are on ordinary accounts. *)
Definition entries_owned (db : DB) : Prop :=
  map_Forall (λ _ e, ordinary_account_of db (exp_user e) (exp_account e))
    (expenses db) ∧
  map_Forall (λ _ i, ordinary_account_of db (inc_user i) (inc_account i))
    (incomes db) ∧
  map_Forall (λ _ t, account_of db (tr_user t) (from_account t) ∧
                     account_of db (tr_user t) (to_account t))
    (transfers db).

(** From [db] to [db'] nothing happened to users, categories and
    accounts but that balances moved: no account came, went, changed
    its name, its owner or its kind. *)
Definition only_balances_moved (db db' : DB) : Prop :=
  users db' = users db ∧ categories db' = categories db ∧
  ∃ delta : positive → Z,
    ∀ a, accounts db' !! a = add_balance (delta a) <$> accounts db !! a.

(** The entry tables of [db'] are those of [db]. *)
Definition same_entries (db db' : DB) : Prop :=
  expenses db' = expenses db ∧ incomes db' = incomes db ∧
  transfers db' = transfers db.

(** What a mutation of a ledger entry can do to a database: nothing; or
    move balances and put one row, valid for the database it was saved
    in, under its id; or move balances and drop one row. *)
Inductive entry_step (db : DB) : DB → Prop :=
| step_nothing : entry_step db db
| step_put_expense db1 k row :
    only_balances_moved db db1 → same_entries db db1 →
    exp_pk row = Some k → 0 < exp_amount row →
    ordinary_account_of db (exp_user row) (exp_account row) →
    entry_step db (set_expenses (insert k row) db1)
| step_drop_expense db1 k :
    only_balances_moved db db1 → same_entries db db1 →
    entry_step db (set_expenses (delete k) db1)
| step_put_income db1 k row :
    only_balances_moved db db1 → same_entries db db1 →
    inc_pk row = Some k → 0 < inc_amount row →
    ordinary_account_of db (inc_user row) (inc_account row) →
    entry_step db (set_incomes (insert k row) db1)
| step_drop_income db1 k :
    only_balances_moved db db1 → same_entries db db1 →
    entry_step db (set_incomes (delete k) db1)
| step_put_transfer db1 k row :
    only_balances_moved db db1 → same_entries db db1 →
    tr_pk row = Some k → 0 < tr_amount row →
    from_account row ≠ to_account row →
    account_of db (tr_user row) (from_account row) →
    account_of db (tr_user row) (to_account row) →
    entry_step db (set_transfers (insert k row) db1)
| step_drop_transfer db1 k :
    only_balances_moved db db1 → same_entries db db1 →
    entry_step db (set_transfers (delete k) db1).

(** ** The date helpers of the views: [expenses/views.py], lines 105-119

    [parse_start] and [parse_end] read the [start] and [end] query
    parameters of the list and report views, given as YYYY-MM-DD or as
    YYYY-MM.  The builtin [int] applied to a string is left open
    ([py_int], [None] where it raises [ValueError]); [str.split],
    [calendar.monthrange] and the [date] constructor are those of
    CPython.  The exceptions are told apart because the views that catch
    anything around these calls catch [ValueError] only. *)

Inductive date_error := Date_ValueError | Date_IndexError | Date_OverflowError.

#[global] Instance date_ret : MRet (sum date_error) := λ A a, inr a.
#[global] Instance date_bind : MBind (sum date_error) := λ A B k x,
  match x with inl e => inl e | inr a => k a end.

Record date := mkDate { year : Z; month : Z; day : Z }.

(** [s.split(sep)] for a separator of one character *)
Fixpoint str_split (sep : Ascii.ascii) (s : string) : list string :=
  match s with
  | EmptyString => [EmptyString]
  | String c s' =>
      if Ascii.eqb c sep then EmptyString :: str_split sep s'
      else match str_split sep s' with
           | p :: parts => String c p :: parts
           | [] => [String c EmptyString]
           end
  end.

(** [parts[i]] *)
Definition item (parts : list string) (i : nat) : date_error + string :=
  match parts !! i with
  | Some p => inr p
  | None => inl Date_IndexError
  end.

(** [calendar.isleap] *)
Definition isleap (y : Z) : bool :=
  (y mod 4 =? 0) && (negb (y mod 100 =? 0) || (y mod 400 =? 0)).

(** [calendar.mdays] *)
Definition mdays : list Z := [0; 31; 28; 31; 30; 31; 30; 31; 31; 30; 31; 30; 31].

(** The number of days of a month, [monthrange(y, m)[1]]: the month is
    checked ([IllegalMonthError] is a [ValueError]), the year is not. *)
Definition ndays (y m : Z) : Z :=
  default 0 (mdays !! Z.to_nat m)
  + (if bool_decide (m = 2) && isleap y then 1 else 0).

Definition monthrange (y m : Z) : date_error + Z :=
  if bool_decide (1 ≤ m ≤ 12) then inr (ndays y m) else inl Date_ValueError.

(** [date(y, m, d)]: the arguments are converted to C integers
    ([OverflowError]), then checked against the calendar
    ([ValueError]). *)
Definition c_int (z : Z) : bool := bool_decide (- 2 ^ 31 ≤ z < 2 ^ 31).

Definition date_new (y m d : Z) : date_error + date :=
  if negb (c_int y && c_int m && c_int d) then inl Date_OverflowError
  else if bool_decide (1 ≤ y ≤ 9999) && bool_decide (1 ≤ m ≤ 12)
          && bool_decide (1 ≤ d ≤ ndays y m)
  then inr (mkDate y m d)
  else inl Date_ValueError.

Section date_helpers.
Variable py_int : string → option Z.

(** [int(p)] *)
Definition int (p : string) : date_error + Z :=
  match py_int p with
  | Some z => inr z
  | None => inl Date_ValueError
  end.

Definition parse_start (s : string) : date_error + date :=
  let parts := str_split "-"%char s in
  p0 ← item parts 0; y ← int p0;
  p1 ← item parts 1; m ← int p1;
  d ← (if bool_decide (2 < length parts)%nat
       then p2 ← item parts 2; int p2
       else mret 1);
  date_new y m d.

Definition parse_end (s : string) : date_error + date :=
  let parts := str_split "-"%char s in
  p0 ← item parts 0; y ← int p0;
  p1 ← item parts 1; m ← int p1;
  d ← (if bool_decide (2 < length parts)%nat
       then p2 ← item parts 2; int p2
       else monthrange y m);
  date_new y m d.

End date_helpers.

(** [int] on the strings of decimal digits, for the examples *)
Fixpoint int_of_digits_from (acc : Z) (s : string) : option Z :=
  match s with
  | EmptyString => Some acc
  | String c s' =>
      let n := Z.of_nat (nat_of_ascii c) in
      if bool_decide (48 ≤ n ≤ 57)
      then int_of_digits_from (10 * acc + (n - 48)) s'
      else None
  end.

Definition int_of_digits (s : string) : option Z :=
  match s with
  | EmptyString => None
  | _ => int_of_digits_from 0 s
  end.

(** * Properties *)

(** ** Running the monad *)

Lemma bind_ok {A B} (m : M A) (k : A → M B) db a db' :
  m db = (inr a, db') → (m ≫= k) db = k a db'.
Proof. intros H. unfold mbind, M_bind. by rewrite H. Qed.

Ltac run :=
  unfold mbind, M_bind, mret, M_ret, query, atomic, raise, modify, get_db,
    get_row, update_balance in *; simpl in *.

(** ** Balance updates *)

Lemma add_balance_add d1 d2 a :
  add_balance d1 (add_balance d2 a) = add_balance (d2 + d1) a.
Proof. destruct a. unfold add_balance. simpl. f_equal. lia. Qed.

Lemma add_balance_0 a : add_balance 0 a = a.
Proof. destruct a. unfold add_balance. simpl. f_equal. lia. Qed.

Lemma lookup_adjust k d (accs : gmap positive Account) a :
  adjust k d accs !! a =
  add_balance (if decide (k = a) then d else 0) <$> accs !! a.
Proof.
  unfold adjust. rewrite lookup_alter. case_decide; subst; [done|].
  destruct (accs !! a); simpl; by rewrite ?add_balance_0.
Qed.

Lemma adjust_adjust_same k d1 d2 (accs : gmap positive Account) :
  adjust k d1 (adjust k d2 accs) = adjust k (d2 + d1) accs.
Proof.
  apply map_eq. intros a. rewrite !lookup_adjust.
  destruct (accs !! a); simpl; [|done]. rewrite add_balance_add.
  by case_decide.
Qed.

(** Undoing a two-sided effect gives the table back, whatever the two
    accounts are. *)
Lemma adjust_undo f t x (accs : gmap positive Account) :
  adjust t x (adjust f (- x) (adjust t (- x) (adjust f x accs))) = accs.
Proof.
  apply map_eq. intros a. rewrite !lookup_adjust.
  destruct (accs !! a); simpl; [|done]. rewrite !add_balance_add.
  rewrite <- (add_balance_0 a0) at 2. do 2 f_equal.
  repeat case_decide; lia.
Qed.

(** ** Fresh ids *)

Lemma next_pk_above {R} (m : gmap positive R) k :
  is_Some (m !! k) → (k < next_pk m)%positive.
Proof.
  intros [r Hr]. apply elem_of_map_to_list in Hr.
  assert (k ∈ (map_to_list m).*1) as Hk.
  { apply list_elem_of_fmap. by exists (k, r). }
  unfold next_pk. induction ((map_to_list m).*1) as [|j l IH]; simpl.
  - by apply elem_of_nil in Hk.
  - apply elem_of_cons in Hk as [->|Hin]; [lia|].
    specialize (IH Hin). lia.
Qed.

Lemma next_pk_fresh {R} (m : gmap positive R) : m !! next_pk m = None.
Proof.
  destruct (m !! next_pk m) as [r|] eqn:H; [|done].
  assert (next_pk m < next_pk m)%positive by (apply next_pk_above; eauto).
  lia.
Qed.

(** ** The rows locked by [Transfer.save] *)

Lemma locked_both a b (accs : gmap positive Account) x y :
  a ≠ b → accs !! a = Some x → accs !! b = Some y →
  size (select_for_update_in a b accs) = 2%nat.
Proof.
  intros Hab Ha Hb.
  assert (select_for_update_in a b accs = <[a:=x]> {[b:=y]}) as ->.
  { apply map_eq. intros k. apply option_eq. intros v.
    unfold select_for_update_in.
    rewrite map_lookup_filter_Some, lookup_insert_Some, lookup_singleton_Some.
    simpl. split.
    - intros [Hk [->| ->]]; [left|right]; repeat split; congruence.
    - intros [[-> ->]|[? [-> ->]]]; auto. }
  rewrite map_size_insert_None, map_size_singleton; [done|].
  by rewrite lookup_singleton_ne.
Qed.

(** ** What passing validation means *)

Lemma finish_ok errs : finish errs = inr tt → errs = [].
Proof. by destruct errs. Qed.

Lemma full_clean_ok cf cl vc :
  full_clean cf cl vc = inr tt →
  cf = [] ∧ vc [] = [] ∧ (cl = inr tt ∨ cl = inl (ValidationError [])).
Proof.
  unfold full_clean. destruct cl as [[e2| | | |]|[]]; try done.
  - intros H%finish_ok.
    apply app_eq_nil in H as [H1 H2]. apply app_eq_nil in H1 as [-> ->].
    simpl in H2. auto.
  - intros H%finish_ok. apply app_eq_nil in H as [-> H2]. auto.
Qed.

Lemma field_error_ok key msg ok : field_error key msg ok = [] → ok = true.
Proof. by destruct ok. Qed.

Lemma check_constraint_ok name fields holds :
  check_constraint name fields holds [] = [] → holds = true.
Proof.
  unfold check_constraint. case_bool_decide as H.
  - apply Exists_exists in H as (f & _ & Hf). by apply elem_of_nil in Hf.
  - apply field_error_ok.
Qed.

Lemma Transfer_full_clean_ok self db :
  Transfer_full_clean self db = inr tt → ∃ fa ta, Transfer_valid self db fa ta.
Proof.
  intros (_ & _ & Hclean)%full_clean_ok. revert Hclean.
  unfold Transfer_clean, related, invalid.
  destruct (Z.leb_spec (tr_amount self) 0); [by intros [?|?]|].
  case_bool_decide; [by intros [?|?]|].
  destruct (accounts db !! from_account self) as [fa|] eqn:Hf; [|by intros [?|?]].
  case_bool_decide as Hfu; [by intros [?|?]|].
  destruct (accounts db !! to_account self) as [ta|] eqn:Ht; [|by intros [?|?]].
  case_bool_decide as Htu; [by intros [?|?]|].
  intros _. exists fa, ta. by split.
Qed.


(** ** [Transfer.save], step by step *)

Lemma Transfer_save_body_create self db fa ta :
  tr_pk self = None →
  from_account self ≠ to_account self →
  accounts db !! from_account self = Some fa →
  accounts db !! to_account self = Some ta →
  Transfer_save_body self db =
    if short_of_funds fa self then (inl insufficient_funds, db)
    else Transfer_super_save self (set_accounts (apply_accounts self) db).
Proof.
  intros Hpk Hne Hf Ht. unfold Transfer_save_body, short_of_funds. run.
  rewrite (locked_both _ _ _ fa ta) by done. simpl.
  rewrite Hpk, Hf. simpl.
  destruct (negb (is_system fa) && (balance fa <? tr_amount self)); [done|].
  unfold _apply_effect. run. done.
Qed.

Lemma Transfer_save_body_update self k prev db fa ta fa1 :
  tr_pk self = Some k →
  transfers db !! k = Some prev →
  from_account self ≠ to_account self →
  accounts db !! from_account self = Some fa →
  accounts db !! to_account self = Some ta →
  reverse_accounts prev (accounts db) !! from_account self = Some fa1 →
  Transfer_save_body self db =
    if short_of_funds fa1 self then (inl insufficient_funds, db)
    else Transfer_super_save self
           (set_accounts (λ m, apply_accounts self (reverse_accounts prev m)) db).
Proof.
  intros Hpk Hprev Hne Hf Ht Hf1.
  unfold Transfer_save_body, short_of_funds. run.
  rewrite (locked_both _ _ _ fa ta) by done. simpl.
  rewrite Hpk, Hprev. unfold _reverse_effect. run.
  unfold reverse_accounts in Hf1. rewrite Hf1.
  destruct (negb (is_system fa1) && (balance fa1 <? tr_amount self)).
  - f_equal. unfold set_accounts at 1 2 3 4. simpl.
    rewrite adjust_undo. by destruct db.
  - unfold _apply_effect. run. done.
Qed.

Lemma Transfer_delete_run self k prev db :
  tr_pk self = Some k →
  transfers db !! k = Some prev →
  Transfer_delete self db =
    (inr tt, set_transfers (delete k) (set_accounts (reverse_accounts prev) db)).
Proof.
  intros Hpk Hprev. unfold Transfer_delete, Transfer_super_delete. run.
  rewrite Hpk, Hprev. unfold _reverse_effect. run. done.
Qed.

Lemma lookup_reverse_accounts prev (accs : gmap positive Account) a :
  reverse_accounts prev accs !! a =
  add_balance ((if decide (from_account prev = a) then tr_amount prev else 0)
               - (if decide (to_account prev = a) then tr_amount prev else 0))
    <$> accs !! a.
Proof.
  unfold reverse_accounts. rewrite !lookup_adjust.
  destruct (accs !! a); simpl; [|done]. rewrite add_balance_add.
  do 2 f_equal. repeat case_decide; lia.
Qed.

Lemma lookup_apply_accounts self (accs : gmap positive Account) a :
  apply_accounts self accs !! a =
  add_balance ((if decide (to_account self = a) then tr_amount self else 0)
               - (if decide (from_account self = a) then tr_amount self else 0))
    <$> accs !! a.
Proof.
  unfold apply_accounts. rewrite !lookup_adjust.
  destruct (accs !! a); simpl; [|done]. rewrite add_balance_add.
  do 2 f_equal. repeat case_decide; lia.
Qed.

Lemma apply_reverse_accounts self (accs : gmap positive Account) :
  reverse_accounts self (apply_accounts self accs) = accs.
Proof.
  apply map_eq. intros a.
  rewrite lookup_reverse_accounts, lookup_apply_accounts.
  destruct (accs !! a) as [acc|]; simpl; [|done].
  rewrite add_balance_add. rewrite <- (add_balance_0 acc) at 2.
  do 2 f_equal. lia.
Qed.

(** [Transfer.save] on an instance that passes validation and, when it
    has an id, is stored under it. *)
Lemma Transfer_save_valid self db fa1 :
  Transfer_full_clean self db = inr tt →
  (∀ k, tr_pk self = Some k → is_Some (transfers db !! k)) →
  post_reversal self db !! from_account self = Some fa1 →
  Transfer_save self db =
    if short_of_funds fa1 self then (inl insufficient_funds, db)
    else Transfer_super_save self
           (set_accounts (λ _, apply_accounts self (post_reversal self db)) db).
Proof.
  intros Hclean Hstored Hf1. unfold Transfer_save.
  destruct (Transfer_full_clean_ok _ _ Hclean) as (fa & ta & [Hf Ht Hne _ _ _]).
  erewrite bind_ok by (unfold query; by rewrite Hclean).
  unfold atomic, post_reversal in *.
  destruct (tr_pk self) as [k|] eqn:Hpk; simpl in *.
  - destruct (Hstored k eq_refl) as [prev Hprev]. rewrite Hprev in *.
    rewrite (Transfer_save_body_update self k prev db fa ta fa1) by done.
    destruct (short_of_funds fa1 self); [done|].
    unfold Transfer_super_save. by rewrite Hpk.
  - rewrite (Transfer_save_body_create self db fa ta) by done.
    assert (fa = fa1) as -> by congruence.
    destruct (short_of_funds fa1 self); [done|].
    unfold Transfer_super_save. by rewrite Hpk.
Qed.

Lemma Transfer_save_err self db e db' :
  Transfer_save self db = (inl e, db') → db' = db.
Proof.
  unfold Transfer_save. run.
  destruct (Transfer_full_clean self db); [congruence|].
  destruct (Transfer_save_body self db) as [[?|?] ?]; congruence.
Qed.

Lemma post_reversal_lookup self db a :
  is_Some (post_reversal self db !! a) ↔ is_Some (accounts db !! a).
Proof.
  unfold post_reversal. destruct (tr_pk self ≫= _); [|done].
  rewrite lookup_reverse_accounts. by rewrite fmap_is_Some.
Qed.

(** C1: an update of a stored transfer whose from-account, once the
    stored effect is taken back, is an ordinary account holding less
    than the new amount, aborts and leaves the database as it was.  When
    the instance passes validation the error is the insufficient-funds
    one, and the block of [save] has itself put the reversed amounts
    back at the moment it raises, before any rollback. *)
Theorem failed_transfer_update_changes_nothing self k prev db fa1 :
  tr_pk self = Some k →
  transfers db !! k = Some prev →
  reverse_accounts prev (accounts db) !! from_account self = Some fa1 →
  is_system fa1 = false →
  balance fa1 < tr_amount self →
  (∃ e, Transfer_save self db = (inl e, db)) ∧
  (Transfer_full_clean self db = inr tt →
   Transfer_save_body self db = (inl insufficient_funds, db) ∧
   Transfer_save self db = (inl insufficient_funds, db)).
Proof.
  intros Hpk Hprev Hf1 Hsys Hlt.
  assert (short_of_funds fa1 self = true) as Hshort.
  { unfold short_of_funds. rewrite Hsys. simpl. by apply Z.ltb_lt. }
  assert (Transfer_full_clean self db = inr tt →
          Transfer_save_body self db = (inl insufficient_funds, db) ∧
          Transfer_save self db = (inl insufficient_funds, db)) as Hvalid.
  { intros Hclean. split.
    - destruct (Transfer_full_clean_ok _ _ Hclean)
        as (fa & ta & [Hf Ht Hne _ _ _]).
      rewrite (Transfer_save_body_update self k prev db fa ta fa1) by done.
      by rewrite Hshort.
    - rewrite (Transfer_save_valid self db fa1); [by rewrite Hshort|done| |].
      + intros k' Hk'. rewrite Hpk in Hk'. injection Hk' as <-. eauto.
      + unfold post_reversal. rewrite Hpk. simpl. by rewrite Hprev. }
  split; [|done].
  destruct (Transfer_full_clean self db) as [e|[]] eqn:Hclean.
  - exists e. unfold Transfer_save. run. by rewrite Hclean.
  - exists insufficient_funds. by apply Hvalid.
Qed.

Lemma Transfer_full_clean_digits self db :
  Transfer_full_clean self db = inr tt → tr_amount self < 10 ^ 10.
Proof.
  intros (Hfields & _ & _)%full_clean_ok. unfold Transfer_clean_fields in Hfields.
  do 3 apply app_eq_nil in Hfields as [_ Hfields].
  apply field_error_ok in Hfields. unfold decimal_10_2 in Hfields. lia.
Qed.

(** C6, as amended: for a transfer that passes validation, so of a
    positive amount of at most ten digits, and balances that are within
    the twelve digits of the column, stored and with the stored effect
    taken back, the funds check reads the from-account after the stored
    effect is taken back.  A system from-account is never checked: the
    transfer is saved whatever that account holds, as long as the
    balances the transfer writes are within the column; the balance
    drops by the amount and may become negative.  An ordinary
    from-account lets the transfer through only when it holds at least
    the amount, and then it does, under the same condition. *)
Theorem system_account_skips_funds_check self db :
  Transfer_full_clean self db = inr tt →
  (∀ k, tr_pk self = Some k → is_Some (transfers db !! k)) →
  balances_fit (accounts db) →
  balances_fit (post_reversal self db) →
  0 < tr_amount self < 10 ^ 10 ∧
  ∃ fa1, post_reversal self db !! from_account self = Some fa1 ∧
    (is_system fa1 = true →
     balances_fit (apply_accounts self (post_reversal self db)) →
       ∃ row db' fa', Transfer_save self db = (inr row, db') ∧
         accounts db' !! from_account self = Some fa' ∧
         balance fa' = balance fa1 - tr_amount self) ∧
    (is_system fa1 = false →
       (saved (Transfer_save self db) → tr_amount self ≤ balance fa1) ∧
       (tr_amount self ≤ balance fa1 →
        balances_fit (apply_accounts self (post_reversal self db)) →
        saved (Transfer_save self db))).
Proof.
  intros Hclean Hstored _ _.
  destruct (Transfer_full_clean_ok _ _ Hclean)
    as (fa & ta & [Hf Ht Hne Hpos _ _]).
  split; [split; [done|by apply (Transfer_full_clean_digits self db)]|].
  destruct (proj2 (post_reversal_lookup self db (from_account self)))
    as [fa1 Hf1]; [eauto|].
  exists fa1. split; [done|].
  rewrite (Transfer_save_valid self db fa1) by done.
  unfold short_of_funds. split; intros Hsys; rewrite Hsys; simpl.
  - intros _. unfold Transfer_super_save.
    assert (apply_accounts self (post_reversal self db) !! from_account self
            = Some (add_balance (- tr_amount self) fa1)) as Hlook.
    { rewrite lookup_apply_accounts, Hf1. simpl. do 2 f_equal.
      rewrite decide_False by done. rewrite decide_True by done. lia. }
    destruct (tr_pk self); eexists _, _, _; (split; [done|]); simpl;
      (split; [exact Hlook|]); simpl; lia.
  - destruct (Z.ltb_spec (balance fa1) (tr_amount self)); split.
    + intros (row & db' & ?). done.
    + lia.
    + lia.
    + intros _ _. unfold Transfer_super_save, saved.
      destruct (tr_pk self); eauto.
Qed.

(** C6, as it is stated, at an amount of eleven digits: a transfer of
    100000000.00 out of a system account is a transfer of a positive
    amount, and it is refused, by the ten digits of [amount]; nothing is
    written. *)
Lemma system_account_refuses_eleven_digits :
  accounts db_salary !! from_account salary_eleven_digits
  = Some (mkAccount 1 "External (System)" 0 true) ∧
  0 < tr_amount salary_eleven_digits ∧
  Transfer_save salary_eleven_digits db_salary
  = (inl (ValidationError
            [("amount",
              "Ensure that there are no more than 10 digits in total.")]),
     db_salary).
Proof. repeat split. Qed.



Lemma Transfer_save_ok_clean self db row db' :
  Transfer_save self db = (inr row, db') →
  Transfer_full_clean self db = inr tt.
Proof.
  unfold Transfer_save. run.
  by destruct (Transfer_full_clean self db) as [e|[]].
Qed.




(** C8: deleting a stored transfer succeeds, removes the row, and gives
    the amount back: the from-account gains it and the to-account loses
    it, every other account keeps its balance.  Deleting the instance
    that a creation just returned gives back the database the creation
    started from. *)
Theorem Transfer_delete_reverses self k prev db :
  tr_pk self = Some k →
  transfers db !! k = Some prev →
  ∃ db', Transfer_delete self db = (inr tt, db') ∧
    transfers db' = delete k (transfers db) ∧
    (∀ a, accounts db' !! a =
       add_balance
         ((if decide (from_account prev = a) then tr_amount prev else 0)
          - (if decide (to_account prev = a) then tr_amount prev else 0))
       <$> accounts db !! a) ∧
    (∀ new db0, tr_pk new = None →
       Transfer_save new db0 = (inr self, db) → db' = db0).
Proof.
  intros Hpk Hprev. eexists. split; [by apply Transfer_delete_run|].
  split; [done|]. split; [intros a; apply lookup_reverse_accounts|].
  intros new db0 Hnew Hsave.
  pose proof (Transfer_save_ok_clean _ _ _ _ Hsave) as Hclean.
  destruct (Transfer_full_clean_ok _ _ Hclean) as (fa & ta & [Hf _ _ _ _ _]).
  assert (post_reversal new db0 = accounts db0) as Hpost.
  { unfold post_reversal. by rewrite Hnew. }
  rewrite (Transfer_save_valid new db0 fa) in Hsave;
    [|done|intros ?; by rewrite Hnew|by rewrite Hpost].
  destruct (short_of_funds fa new); [done|].
  unfold Transfer_super_save in Hsave. rewrite Hnew, Hpost in Hsave.
  injection Hsave as <- <-. simpl in *. injection Hpk as <-.
  rewrite lookup_insert_eq in Hprev. injection Hprev as <-.
  destruct db0 as [us accs cats exps incs trs].
  unfold set_transfers, set_accounts. simpl. f_equal.
  - apply (apply_reverse_accounts new accs).
  - apply delete_insert_id, next_pk_fresh.
Qed.

(** ** [Expense.save] and [Income.save], step by step *)

Lemma Expense_full_clean_ok self db :
  Expense_full_clean self db = inr tt →
  ∃ account category, Expense_valid self db account category.
Proof.
  intros (_ & Hpos & Hclean)%full_clean_ok.
  apply check_constraint_ok, Z.ltb_lt in Hpos. revert Hclean.
  unfold Expense_clean, related, invalid.
  destruct (accounts db !! exp_account self) as [account|] eqn:Ha;
    [|by intros [?|?]].
  case_bool_decide; [by intros [?|?]|].
  destruct (categories db !! exp_category self) as [category|] eqn:Hc;
    [|by intros [?|?]].
  case_bool_decide; [by intros [?|?]|].
  destruct (is_system account) eqn:Hsys; [by intros [?|?]|].
  intros _. exists account, category. by split.
Qed.

Lemma Income_full_clean_ok self db :
  Income_full_clean self db = inr tt → ∃ account, Income_valid self db account.
Proof.
  intros (_ & Hpos & Hclean)%full_clean_ok.
  apply check_constraint_ok, Z.ltb_lt in Hpos. revert Hclean.
  unfold Income_clean, related, invalid.
  destruct (accounts db !! inc_account self) as [account|] eqn:Ha;
    [|by intros [?|?]].
  case_bool_decide; [by intros [?|?]|].
  destruct (is_system account) eqn:Hsys; [by intros [?|?]|].
  intros _. exists account. by split.
Qed.

Lemma Expense_save_invalid self db e :
  Expense_full_clean self db = inl e → Expense_save self db = (inl e, db).
Proof. intros H. unfold Expense_save. run. by rewrite H. Qed.

Lemma Income_save_invalid self db e :
  Income_full_clean self db = inl e → Income_save self db = (inl e, db).
Proof. intros H. unfold Income_save. run. by rewrite H. Qed.

Lemma Expense_save_create self db :
  Expense_full_clean self db = inr tt →
  exp_pk self = None →
  Expense_save self db =
    Expense_super_save self
      (set_accounts (adjust (exp_account self) (- exp_amount self)) db).
Proof.
  intros Hclean Hpk. unfold Expense_save, Expense_save_balances. run.
  rewrite Hclean, Hpk. simpl. unfold Expense_super_save. by rewrite Hpk.
Qed.

Lemma Expense_save_update self k prev db :
  Expense_full_clean self db = inr tt →
  exp_pk self = Some k →
  expenses db !! k = Some prev →
  Expense_save self db =
    (inr self, set_expenses (insert k self)
                 (set_accounts (Expense_update_accounts prev self) db)).
Proof.
  intros Hclean Hpk Hprev.
  unfold Expense_save, Expense_save_balances, Expense_update_accounts. run.
  rewrite Hclean, Hpk, Hprev. unfold Expense_super_save.
  case_bool_decide; simpl; by rewrite Hpk.
Qed.

Lemma Expense_save_missing self k db :
  exp_pk self = Some k → expenses db !! k = None →
  ∃ e, Expense_save self db = (inl e, db).
Proof.
  intros Hpk Hnone. unfold Expense_save, Expense_save_balances. run.
  destruct (Expense_full_clean self db); [by eauto|].
  rewrite Hpk, Hnone. by eauto.
Qed.

Lemma Income_save_create self db :
  Income_full_clean self db = inr tt →
  inc_pk self = None →
  Income_save self db =
    Income_super_save self
      (set_accounts (adjust (inc_account self) (inc_amount self)) db).
Proof.
  intros Hclean Hpk. unfold Income_save, Income_save_balances. run.
  rewrite Hclean, Hpk. simpl. unfold Income_super_save. by rewrite Hpk.
Qed.

Lemma Income_save_update self k prev db :
  Income_full_clean self db = inr tt →
  inc_pk self = Some k →
  incomes db !! k = Some prev →
  Income_save self db =
    (inr self, set_incomes (insert k self)
                 (set_accounts (Income_update_accounts prev self) db)).
Proof.
  intros Hclean Hpk Hprev.
  unfold Income_save, Income_save_balances, Income_update_accounts. run.
  rewrite Hclean, Hpk, Hprev. unfold Income_super_save.
  case_bool_decide; simpl; by rewrite Hpk.
Qed.

Lemma Income_save_missing self k db :
  inc_pk self = Some k → incomes db !! k = None →
  ∃ e, Income_save self db = (inl e, db).
Proof.
  intros Hpk Hnone. unfold Income_save, Income_save_balances. run.
  destruct (Income_full_clean self db); [by eauto|].
  rewrite Hpk, Hnone. by eauto.
Qed.

Lemma Expense_update_accounts_refines prev self accs :
  Expense_update_accounts prev self accs
  = expense_reverse_then_reapply prev self accs.
Proof.
  unfold Expense_update_accounts, expense_reverse_then_reapply.
  case_bool_decide as H; [done|]. rewrite H.
  rewrite adjust_adjust_same. f_equal. lia.
Qed.

Lemma Income_update_accounts_refines prev self accs :
  Income_update_accounts prev self accs
  = income_reverse_then_reapply prev self accs.
Proof.
  unfold Income_update_accounts, income_reverse_then_reapply.
  case_bool_decide as H; [done|]. rewrite H.
  rewrite adjust_adjust_same. f_equal. lia.
Qed.

(** C5: an update of a stored expense or income that passes validation
    ends with the balances of a full reverse-then-reapply.  The code
    writes two balance updates when the account changed (old amount back
    to the old account, new amount on the new account) and a single one,
    of the difference, when it did not; either way every account ends
    where taking the whole old entry back and applying the whole new one
    would leave it. *)
Theorem update_is_reverse_then_reapply :
  (∀ (self : Expense) k prev db,
     Expense_full_clean self db = inr tt →
     exp_pk self = Some k →
     expenses db !! k = Some prev →
     ∃ db', Expense_save self db = (inr self, db') ∧
       accounts db' = expense_reverse_then_reapply prev self (accounts db) ∧
       (exp_account prev ≠ exp_account self →
          accounts db' = adjust (exp_account self) (- exp_amount self)
                           (adjust (exp_account prev) (exp_amount prev)
                              (accounts db))) ∧
       (exp_account prev = exp_account self →
          accounts db' = adjust (exp_account self)
                           (- (exp_amount self - exp_amount prev))
                           (accounts db)) ∧
       (∀ a, accounts db' !! a =
          add_balance
            ((if decide (exp_account prev = a) then exp_amount prev else 0)
             - (if decide (exp_account self = a) then exp_amount self else 0))
          <$> accounts db !! a)) ∧
  (∀ (self : Income) k prev db,
     Income_full_clean self db = inr tt →
     inc_pk self = Some k →
     incomes db !! k = Some prev →
     ∃ db', Income_save self db = (inr self, db') ∧
       accounts db' = income_reverse_then_reapply prev self (accounts db) ∧
       (inc_account prev ≠ inc_account self →
          accounts db' = adjust (inc_account self) (inc_amount self)
                           (adjust (inc_account prev) (- inc_amount prev)
                              (accounts db))) ∧
       (inc_account prev = inc_account self →
          accounts db' = adjust (inc_account self)
                           (inc_amount self - inc_amount prev)
                           (accounts db)) ∧
       (∀ a, accounts db' !! a =
          add_balance
            ((if decide (inc_account self = a) then inc_amount self else 0)
             - (if decide (inc_account prev = a) then inc_amount prev else 0))
          <$> accounts db !! a)).
Proof.
  split.
  - intros self k prev db Hclean Hpk Hprev. eexists.
    split; [by apply Expense_save_update|]. simpl.
    split; [apply Expense_update_accounts_refines|].
    split; [|split].
    + intros Hne. unfold Expense_update_accounts.
      by rewrite bool_decide_eq_true_2.
    + intros Heq. unfold Expense_update_accounts.
      by rewrite bool_decide_eq_false_2 by (by intros []).
    + intros a. rewrite Expense_update_accounts_refines.
      unfold expense_reverse_then_reapply. rewrite !lookup_adjust.
      destruct (accounts db !! a); simpl; [|done]. rewrite add_balance_add.
      do 2 f_equal. repeat case_decide; lia.
  - intros self k prev db Hclean Hpk Hprev. eexists.
    split; [by apply Income_save_update|]. simpl.
    split; [apply Income_update_accounts_refines|].
    split; [|split].
    + intros Hne. unfold Income_update_accounts.
      by rewrite bool_decide_eq_true_2.
    + intros Heq. unfold Income_update_accounts.
      by rewrite bool_decide_eq_false_2 by (by intros []).
    + intros a. rewrite Income_update_accounts_refines.
      unfold income_reverse_then_reapply. rewrite !lookup_adjust.
      destruct (accounts db !! a); simpl; [|done]. rewrite add_balance_add.
      do 2 f_equal. repeat case_decide; lia.
Qed.

(** C9: [save] of an expense or an income validates first.  When the
    account or the category is not the user's, the amount is not
    positive, or the account is a system account, [full_clean] raises,
    [save] raises that same error without entering its transaction, and
    the database is the one it started from.  The same holds for every
    other failure of [full_clean]. *)
Theorem validation_failure_changes_nothing :
  (∀ (self : Expense) db,
     (¬ ∃ account category, Expense_valid self db account category) →
     ∃ e, Expense_full_clean self db = inl e ∧
          Expense_save self db = (inl e, db)) ∧
  (∀ (self : Income) db,
     (¬ ∃ account, Income_valid self db account) →
     ∃ e, Income_full_clean self db = inl e ∧
          Income_save self db = (inl e, db)) ∧
  (∀ (self : Expense) db e,
     Expense_full_clean self db = inl e → Expense_save self db = (inl e, db)) ∧
  (∀ (self : Income) db e,
     Income_full_clean self db = inl e → Income_save self db = (inl e, db)).
Proof.
  split; [|split; [|split]].
  - intros self db Hbad.
    destruct (Expense_full_clean self db) as [e|[]] eqn:Hclean.
    + exists e. split; [done|]. by apply Expense_save_invalid.
    + destruct Hbad. by apply Expense_full_clean_ok.
  - intros self db Hbad.
    destruct (Income_full_clean self db) as [e|[]] eqn:Hclean.
    + exists e. split; [done|]. by apply Income_save_invalid.
    + destruct Hbad. by apply Income_full_clean_ok.
  - apply Expense_save_invalid.
  - apply Income_save_invalid.
Qed.

(** ** The ledger invariant *)

Section totals.
Context {R : Type} (f : R → Z).

Lemma total_comm (j1 j2 : positive) (z1 z2 : R) (y : Z) :
  f z1 + (f z2 + y) = f z2 + (f z1 + y).
Proof. lia. Qed.

Lemma total_insert_new (m : gmap positive R) k r :
  m !! k = None → total f (<[k:=r]> m) = total f m + f r.
Proof.
  intros H. unfold total.
  rewrite map_fold_insert_L; [lia| |done]. intros. apply total_comm; done.
Qed.

Lemma total_delete (m : gmap positive R) k r :
  m !! k = Some r → total f (delete k m) = total f m - f r.
Proof.
  intros H. unfold total.
  rewrite (map_fold_delete_L _ _ k r m); [lia| |done].
  intros. apply total_comm; done.
Qed.

Lemma total_insert_old (m : gmap positive R) k r r' :
  m !! k = Some r → total f (<[k:=r']> m) = total f m - f r + f r'.
Proof.
  intros H. rewrite <- insert_delete_eq.
  rewrite total_insert_new by apply lookup_delete_eq.
  by rewrite (total_delete m k r).
Qed.
End totals.

Lemma fmap_add_balance d (x : option Account) d' :
  add_balance d <$> (add_balance d' <$> x) = add_balance (d' + d) <$> x.
Proof. destruct x; simpl; by rewrite ?add_balance_add. Qed.

(** A step that moves every balance by what it adds to the ledger sum
    keeps the invariant. *)
Lemma consistent_step (delta : positive → Z) o db db' :
  consistent_from o db →
  (∀ a, accounts db' !! a = add_balance (delta a) <$> accounts db !! a) →
  (∀ a, ledger_sum db' a = ledger_sum db a + delta a) →
  consistent_from o db'.
Proof.
  intros Hinv Hacc Hsum a acc' Ha. rewrite Hacc in Ha.
  destruct (accounts db !! a) as [acc|] eqn:Hold; [|done].
  injection Ha as <-. rewrite Hsum. simpl. rewrite (Hinv a acc Hold). lia.
Qed.

Lemma consistent_opening_0 db : consistent db ↔ consistent_from (λ _, 0) db.
Proof.
  unfold consistent, consistent_from.
  split; intros H a acc Ha; rewrite (H a acc Ha); lia.
Qed.

Lemma Expense_save_consistent o self db :
  consistent_from o db → consistent_from o (Expense_save self db).2.
Proof.
  intros Hinv.
  destruct (Expense_full_clean self db) as [e|[]] eqn:Hclean.
  { by rewrite (Expense_save_invalid _ _ _ Hclean). }
  destruct (exp_pk self) as [k|] eqn:Hpk.
  - destruct (expenses db !! k) as [prev|] eqn:Hprev.
    + rewrite (Expense_save_update self k prev) by done. simpl.
      apply (consistent_step
               (λ a, expense_on a prev - expense_on a self) o db); [done| |].
      * intros a. simpl. rewrite Expense_update_accounts_refines.
        unfold expense_reverse_then_reapply, expense_on.
        rewrite !lookup_adjust, fmap_add_balance. do 2 f_equal. repeat case_decide; lia.
      * intros a. unfold ledger_sum. simpl.
        rewrite (total_insert_old _ _ k prev) by done. repeat case_decide; lia.
    + by destruct (Expense_save_missing self k db Hpk Hprev) as [e ->].
  - rewrite Expense_save_create by done.
    unfold Expense_super_save. rewrite Hpk. simpl.
    apply (consistent_step (λ a, - expense_on a self) o db); [done| |].
    + intros a. simpl. unfold expense_on. rewrite lookup_adjust.
      do 2 f_equal. case_decide; lia.
    + intros a. unfold ledger_sum. simpl.
      rewrite total_insert_new by apply next_pk_fresh.
      unfold expense_on. simpl. lia.
Qed.

Lemma Income_save_consistent o self db :
  consistent_from o db → consistent_from o (Income_save self db).2.
Proof.
  intros Hinv.
  destruct (Income_full_clean self db) as [e|[]] eqn:Hclean.
  { by rewrite (Income_save_invalid _ _ _ Hclean). }
  destruct (inc_pk self) as [k|] eqn:Hpk.
  - destruct (incomes db !! k) as [prev|] eqn:Hprev.
    + rewrite (Income_save_update self k prev) by done. simpl.
      apply (consistent_step
               (λ a, income_on a self - income_on a prev) o db); [done| |].
      * intros a. simpl. rewrite Income_update_accounts_refines.
        unfold income_reverse_then_reapply, income_on.
        rewrite !lookup_adjust, fmap_add_balance. do 2 f_equal.
        repeat case_decide; lia.
      * intros a. unfold ledger_sum. simpl.
        rewrite (total_insert_old _ _ k prev) by done. repeat case_decide; lia.
    + by destruct (Income_save_missing self k db Hpk Hprev) as [e ->].
  - rewrite Income_save_create by done.
    unfold Income_super_save. rewrite Hpk. simpl.
    apply (consistent_step (λ a, income_on a self) o db); [done| |].
    + intros a. simpl. unfold income_on. by rewrite lookup_adjust.
    + intros a. unfold ledger_sum. simpl.
      rewrite total_insert_new by apply next_pk_fresh.
      unfold income_on. simpl. lia.
Qed.

Lemma Expense_delete_consistent o self db :
  loaded (DeleteExpense self) db →
  consistent_from o db → consistent_from o (Expense_delete self db).2.
Proof.
  intros (k & row & Hpk & Hrow & Hacc & Hamt) Hinv.
  unfold Expense_delete, Expense_super_delete. run. rewrite Hpk. simpl.
  apply (consistent_step (λ a, expense_on a row) o db); [done| |].
  - intros a. simpl. unfold expense_on. rewrite lookup_adjust.
    by rewrite Hacc, Hamt.
  - intros a. unfold ledger_sum. simpl.
    rewrite (total_delete _ _ k row) by done. repeat case_decide; lia.
Qed.

Lemma Income_delete_consistent o self db :
  loaded (DeleteIncome self) db →
  consistent_from o db → consistent_from o (Income_delete self db).2.
Proof.
  intros (k & row & Hpk & Hrow & Hacc & Hamt) Hinv.
  unfold Income_delete, Income_super_delete. run. rewrite Hpk. simpl.
  apply (consistent_step (λ a, - income_on a row) o db); [done| |].
  - intros a. simpl. unfold income_on. rewrite lookup_adjust.
    rewrite Hacc, Hamt. do 2 f_equal. case_decide; lia.
  - intros a. unfold ledger_sum. simpl.
    rewrite (total_delete _ _ k row) by done. repeat case_decide; lia.
Qed.

Lemma Transfer_save_invalid self db e :
  Transfer_full_clean self db = inl e → Transfer_save self db = (inl e, db).
Proof. intros H. unfold Transfer_save. run. by rewrite H. Qed.

Lemma Transfer_save_missing self k db :
  tr_pk self = Some k → transfers db !! k = None →
  ∃ e, Transfer_save self db = (inl e, db).
Proof.
  intros Hpk Hnone. unfold Transfer_save, Transfer_save_body. run.
  destruct (Transfer_full_clean self db); [by eauto|].
  case_bool_decide; simpl; [by eauto|].
  rewrite Hpk, Hnone. by eauto.
Qed.

Lemma Transfer_save_consistent o self db :
  consistent_from o db → consistent_from o (Transfer_save self db).2.
Proof.
  intros Hinv.
  destruct (Transfer_full_clean self db) as [e|[]] eqn:Hclean.
  { by rewrite (Transfer_save_invalid _ _ _ Hclean). }
  destruct (Transfer_full_clean_ok _ _ Hclean) as (fa & ta & [Hf _ _ _ _ _]).
  destruct (proj2 (post_reversal_lookup self db (from_account self)))
    as [fa1 Hf1]; [eauto|].
  destruct (tr_pk self) as [k|] eqn:Hpk.
  - destruct (transfers db !! k) as [prev|] eqn:Hprev.
    + rewrite (Transfer_save_valid self db fa1); [|done| |done].
      2: { intros k' Hk'. rewrite Hpk in Hk'. injection Hk' as <-. eauto. }
      destruct (short_of_funds fa1 self); [done|].
      unfold Transfer_super_save, post_reversal. rewrite Hpk. simpl.
      rewrite Hprev.
      apply (consistent_step
               (λ a, (transfer_in a self - transfer_out a self)
                     - (transfer_in a prev - transfer_out a prev)) o db);
        [done| |].
      * intros a. simpl. unfold transfer_in, transfer_out.
        rewrite lookup_apply_accounts, lookup_reverse_accounts,
          fmap_add_balance. do 2 f_equal. repeat case_decide; lia.
      * intros a. unfold ledger_sum. simpl.
        rewrite !(total_insert_old _ _ k prev) by done. repeat case_decide; lia.
    + by destruct (Transfer_save_missing self k db Hpk Hprev) as [e ->].
  - rewrite (Transfer_save_valid self db fa1); [|done| |done].
    2: { intros k' Hk'. by rewrite Hpk in Hk'. }
    destruct (short_of_funds fa1 self); [done|].
    unfold Transfer_super_save, post_reversal. rewrite Hpk. simpl.
    apply (consistent_step
             (λ a, transfer_in a self - transfer_out a self) o db); [done| |].
    + intros a. simpl. unfold transfer_in, transfer_out.
      by rewrite lookup_apply_accounts.
    + intros a. unfold ledger_sum. simpl.
      rewrite !total_insert_new by apply next_pk_fresh.
      unfold transfer_in, transfer_out. simpl. lia.
Qed.

Lemma Transfer_delete_consistent o self db :
  consistent_from o db → consistent_from o (Transfer_delete self db).2.
Proof.
  intros Hinv.
  destruct (tr_pk self) as [k|] eqn:Hpk.
  - destruct (transfers db !! k) as [prev|] eqn:Hprev.
    + rewrite (Transfer_delete_run self k prev) by done. simpl.
      apply (consistent_step
               (λ a, transfer_out a prev - transfer_in a prev) o db); [done| |].
      * intros a. simpl. unfold transfer_in, transfer_out.
        by rewrite lookup_reverse_accounts.
      * intros a. unfold ledger_sum. simpl.
        rewrite !(total_delete _ _ k prev) by done. repeat case_decide; lia.
    + unfold Transfer_delete. run. by rewrite Hpk, Hprev.
  - unfold Transfer_delete. run. by rewrite Hpk.
Qed.

(** With any opening balances: what a mutation finds as the difference
    between a balance and its ledger sum, it leaves. *)
Lemma mutations_preserve_opening_balances o m db :
  consistent_from o db → loaded m db → consistent_from o (run_mutation m db).
Proof.
  intros Hinv Hloaded. destruct m; simpl.
  - by apply Expense_save_consistent.
  - by apply Expense_delete_consistent.
  - by apply Income_save_consistent.
  - by apply Income_delete_consistent.
  - by apply Transfer_save_consistent.
  - by apply Transfer_delete_consistent.
Qed.

(** *** Entries keep naming accounts that exist *)

Lemma referential_accounts f db :
  (∀ a, is_Some (accounts db !! a) → is_Some (f (accounts db) !! a)) →
  referential db → referential (set_accounts f db).
Proof.
  intros Hdom (He & Hi & Ht). split; [|split]; simpl.
  - intros k e Hk. apply Hdom, (He k e Hk).
  - intros k i Hk. apply Hdom, (Hi k i Hk).
  - intros k t Hk. destruct (Ht k t Hk). split; by apply Hdom.
Qed.

Lemma adjust_is_Some k d (accs : gmap positive Account) a :
  is_Some (accs !! a) → is_Some (adjust k d accs !! a).
Proof. intros H. by rewrite lookup_adjust, fmap_is_Some. Qed.

Lemma referential_insert_expense k e db :
  is_Some (accounts db !! exp_account e) →
  referential db → referential (set_expenses (insert k e) db).
Proof.
  intros Hacc (He & Hi & Ht). split; [|done]. simpl.
  intros k' e' [[_ <-]|[_ Hk]]%lookup_insert_Some; [done|].
  apply (He k' e' Hk).
Qed.

Lemma referential_delete_expense k db :
  referential db → referential (set_expenses (delete k) db).
Proof.
  intros (He & Hi & Ht). split; [|done]. simpl.
  intros k' e' [_ Hk]%lookup_delete_Some. apply (He k' e' Hk).
Qed.

Lemma referential_insert_income k i db :
  is_Some (accounts db !! inc_account i) →
  referential db → referential (set_incomes (insert k i) db).
Proof.
  intros Hacc (He & Hi & Ht). split; [done|split; [|done]]. simpl.
  intros k' i' [[_ <-]|[_ Hk]]%lookup_insert_Some; [done|].
  apply (Hi k' i' Hk).
Qed.

Lemma referential_delete_income k db :
  referential db → referential (set_incomes (delete k) db).
Proof.
  intros (He & Hi & Ht). split; [done|split; [|done]]. simpl.
  intros k' i' [_ Hk]%lookup_delete_Some. apply (Hi k' i' Hk).
Qed.

Lemma referential_insert_transfer k t db :
  is_Some (accounts db !! from_account t) →
  is_Some (accounts db !! to_account t) →
  referential db → referential (set_transfers (insert k t) db).
Proof.
  intros Hf Hto (He & Hi & Ht). split; [done|split; [done|]]. simpl.
  intros k' t' [[_ <-]|[_ Hk]]%lookup_insert_Some; [done|].
  apply (Ht k' t' Hk).
Qed.

Lemma referential_delete_transfer k db :
  referential db → referential (set_transfers (delete k) db).
Proof.
  intros (He & Hi & Ht). split; [done|split; [done|]]. simpl.
  intros k' t' [_ Hk]%lookup_delete_Some. apply (Ht k' t' Hk).
Qed.

Ltac keeps_accounts :=
  intros ? ?; unfold Expense_update_accounts, Income_update_accounts,
    apply_accounts, reverse_accounts; try case_bool_decide;
  repeat apply adjust_is_Some; done.

Lemma Expense_save_referential self db :
  referential db → referential (Expense_save self db).2.
Proof.
  intros Href.
  destruct (Expense_full_clean self db) as [e|[]] eqn:Hclean.
  { by rewrite (Expense_save_invalid _ _ _ Hclean). }
  destruct (Expense_full_clean_ok _ _ Hclean)
    as (account & category & [Ha _ _ _ _ _]).
  destruct (exp_pk self) as [k|] eqn:Hpk.
  - destruct (expenses db !! k) as [prev|] eqn:Hprev.
    + rewrite (Expense_save_update self k prev) by done. simpl.
      apply referential_insert_expense;
        [|apply referential_accounts; [keeps_accounts|done]].
      simpl. revert Ha. generalize (exp_account self). keeps_accounts.
    + by destruct (Expense_save_missing self k db Hpk Hprev) as [e ->].
  - rewrite Expense_save_create by done.
    unfold Expense_super_save. rewrite Hpk. simpl.
    apply referential_insert_expense;
      [|apply referential_accounts; [keeps_accounts|done]].
    simpl. by apply adjust_is_Some.
Qed.

Lemma Income_save_referential self db :
  referential db → referential (Income_save self db).2.
Proof.
  intros Href.
  destruct (Income_full_clean self db) as [e|[]] eqn:Hclean.
  { by rewrite (Income_save_invalid _ _ _ Hclean). }
  destruct (Income_full_clean_ok _ _ Hclean) as (account & [Ha _ _ _]).
  destruct (inc_pk self) as [k|] eqn:Hpk.
  - destruct (incomes db !! k) as [prev|] eqn:Hprev.
    + rewrite (Income_save_update self k prev) by done. simpl.
      apply referential_insert_income;
        [|apply referential_accounts; [keeps_accounts|done]].
      simpl. revert Ha. generalize (inc_account self). keeps_accounts.
    + by destruct (Income_save_missing self k db Hpk Hprev) as [e ->].
  - rewrite Income_save_create by done.
    unfold Income_super_save. rewrite Hpk. simpl.
    apply referential_insert_income;
      [|apply referential_accounts; [keeps_accounts|done]].
    simpl. by apply adjust_is_Some.
Qed.

Lemma Expense_delete_referential self db :
  referential db → referential (Expense_delete self db).2.
Proof.
  intros Href. unfold Expense_delete, Expense_super_delete. run.
  destruct (exp_pk self) as [k|]; simpl; [|done].
  apply referential_delete_expense, referential_accounts; [keeps_accounts|done].
Qed.

Lemma Income_delete_referential self db :
  referential db → referential (Income_delete self db).2.
Proof.
  intros Href. unfold Income_delete, Income_super_delete. run.
  destruct (inc_pk self) as [k|]; simpl; [|done].
  apply referential_delete_income, referential_accounts; [keeps_accounts|done].
Qed.

Lemma Transfer_save_referential self db :
  referential db → referential (Transfer_save self db).2.
Proof.
  intros Href.
  destruct (Transfer_save self db) as [[e|row] db'] eqn:Hsave.
  { by rewrite (Transfer_save_err _ _ _ _ Hsave). }
  pose proof (Transfer_save_ok_clean _ _ _ _ Hsave) as Hclean.
  destruct (Transfer_full_clean_ok _ _ Hclean) as (fa & ta & [Hf Ht _ _ _ _]).
  destruct (proj2 (post_reversal_lookup self db (from_account self)))
    as [fa1 Hf1]; [eauto|].
  assert (∀ k, tr_pk self = Some k → is_Some (transfers db !! k)) as Hstored.
  { intros k Hpk. destruct (transfers db !! k) eqn:Hprev; [done|].
    destruct (Transfer_save_missing self k db Hpk Hprev) as [e He].
    congruence. }
  rewrite (Transfer_save_valid self db fa1) in Hsave by done.
  destruct (short_of_funds fa1 self); [done|].
  assert (∀ a, is_Some (accounts db !! a) →
               is_Some (apply_accounts self (post_reversal self db) !! a))
    as Hdom.
  { intros a Ha. rewrite lookup_apply_accounts, fmap_is_Some.
    by apply post_reversal_lookup. }
  unfold Transfer_super_save in Hsave.
  destruct (tr_pk self); injection Hsave as _ <-; simpl;
    (apply referential_insert_transfer;
     [simpl; apply Hdom; eauto..|by apply referential_accounts]).
Qed.

Lemma Transfer_delete_referential self db :
  referential db → referential (Transfer_delete self db).2.
Proof.
  intros Href.
  destruct (tr_pk self) as [k|] eqn:Hpk.
  - destruct (transfers db !! k) as [prev|] eqn:Hprev.
    + rewrite (Transfer_delete_run self k prev) by done. simpl.
      apply referential_delete_transfer, referential_accounts;
        [keeps_accounts|done].
    + unfold Transfer_delete. run. by rewrite Hpk, Hprev.
  - unfold Transfer_delete. run. by rewrite Hpk.
Qed.

Lemma run_mutation_referential m db :
  referential db → referential (run_mutation m db).
Proof.
  intros Href. destruct m; simpl.
  - by apply Expense_save_referential.
  - by apply Expense_delete_referential.
  - by apply Income_save_referential.
  - by apply Income_delete_referential.
  - by apply Transfer_save_referential.
  - by apply Transfer_delete_referential.
Qed.

(** *** Opening an account *)

Lemma total_zero {R} (f : R → Z) (m : gmap positive R) :
  map_Forall (λ _ r, f r = 0) m → total f m = 0.
Proof.
  induction m as [|k r m Hk IH] using map_ind; intros Hall.
  - unfold total. by rewrite map_fold_empty.
  - rewrite total_insert_new by done.
    rewrite (Hall k r) by apply lookup_insert_eq.
    rewrite IH; [done|].
    intros k' r' Hk'. apply (Hall k' r'). rewrite lookup_insert_ne; [done|].
    intros ->. congruence.
Qed.

(** No stored entry moves money of an account that does not exist. *)
Lemma ledger_sum_absent db a :
  referential db → accounts db !! a = None → ledger_sum db a = 0.
Proof.
  intros (He & Hi & Ht) Ha. unfold ledger_sum.
  rewrite !total_zero; [done|..].
  - intros k t Hk. destruct (Ht k t Hk) as [[x Hx] _].
    unfold transfer_out. case_decide; congruence.
  - intros k e Hk. destruct (He k e Hk) as [x Hx].
    unfold expense_on. case_decide; congruence.
  - intros k t Hk. destruct (Ht k t Hk) as [_ [x Hx]].
    unfold transfer_in. case_decide; congruence.
  - intros k i Hk. destruct (Hi k i Hk) as [x Hx].
    unfold income_on. case_decide; congruence.
Qed.

(** A new account with balance 0.00 keeps both invariants. *)
Lemma open_account_invariant new db :
  balance new = 0 →
  consistent db ∧ referential db →
  consistent (set_accounts (insert (next_pk (accounts db)) new) db) ∧
  referential (set_accounts (insert (next_pk (accounts db)) new) db).
Proof.
  intros Hzero [Hinv Href]. split.
  - intros a acc. simpl.
    intros [[<- <-]|[Hne Ha]]%lookup_insert_Some.
    + rewrite Hzero. symmetry.
      apply (ledger_sum_absent db); [done|apply next_pk_fresh].
    + apply (Hinv a acc Ha).
  - apply referential_accounts; [|done].
    intros a Ha. rewrite lookup_insert_is_Some'. by right.
Qed.

Lemma Account_create_shape new db :
  (Account_create new db).2 = db ∨
  (Account_create new db).2
  = set_accounts (insert (next_pk (accounts db)) new) db.
Proof.
  unfold Account_create. destruct (_ && _); simpl; auto.
Qed.

Lemma get_external_account_shape user db :
  (get_external_account user db).2 = db ∨
  (get_external_account user db).2
  = set_accounts (insert (next_pk (accounts db)) (external_account user)) db.
Proof.
  unfold get_external_account, Account_get_or_create, Account_create. run.
  fold (external_account user).
  destruct (Account_get user true db) as [[]|row] eqn:Hget; simpl; auto.
  destruct (_ && _); simpl; auto.
  rewrite Hget. auto.
Qed.

Lemma reachable_invariant db :
  reachable db → consistent db ∧ referential db.
Proof.
  induction 1 as [us cats|db us cats _ [Hinv Href]|db user name _ IH
                 |db user _ IH|db m _ [Hinv Href] Hloaded].
  - split; [apply map_Forall_empty|].
    split; [|split]; apply map_Forall_empty.
  - done.
  - destruct (Account_create_shape (mkAccount user name 0 false) db)
      as [Heq|Heq]; unfold AccountViewSet_create; rewrite Heq; [done|].
    by apply open_account_invariant.
  - destruct (get_external_account_shape user db) as [Heq|Heq];
      rewrite Heq; [done|].
    by apply open_account_invariant.
  - split; [|by apply run_mutation_referential].
    apply consistent_opening_0, mutations_preserve_opening_balances;
      [by apply consistent_opening_0|done].
Qed.

(** What the mutations do keep.  The balance of every account is the
    sum of the stored entries that reference it, incomes and incoming
    transfers counted positive, expenses and outgoing transfers
    negative.  Every save, every delete of a transfer, and every delete
    of an expense or an income whose instance carries what is stored,
    keeps it so, whether the mutation went through or was refused; and
    it holds in every database reached through such mutations from one
    without accounts, where accounts are opened with balance 0.00. *)
Theorem mutations_preserve_ledger_invariant :
  (∀ m db, consistent db → loaded m db → consistent (run_mutation m db)) ∧
  (∀ db, reachable db → consistent db).
Proof.
  split.
  - intros m db Hinv Hloaded.
    apply consistent_opening_0, mutations_preserve_opening_balances;
      [by apply consistent_opening_0|done].
  - intros db Hreach. by apply reachable_invariant.
Qed.

(** [Expense.delete] and [Income.delete] take the account and the
    amount from the instance and do not read the stored row, as
    [Transfer.delete] does.  Called on an instance whose row is gone,
    they move the balance all the same, and the invariant is lost. *)
Lemma stale_delete_breaks_invariant db :
  consistent db →
  (∀ self k acc,
     exp_pk self = Some k → expenses db !! k = None →
     accounts db !! exp_account self = Some acc → exp_amount self ≠ 0 →
     ¬ consistent (run_mutation (DeleteExpense self) db)) ∧
  (∀ self k acc,
     inc_pk self = Some k → incomes db !! k = None →
     accounts db !! inc_account self = Some acc → inc_amount self ≠ 0 →
     ¬ consistent (run_mutation (DeleteIncome self) db)).
Proof.
  intros Hinv. split.
  - intros self k acc Hpk Hnone Hacc Hamount Hinv'.
    specialize (Hinv _ _ Hacc). simpl in Hinv.
    revert Hinv'. unfold run_mutation, Expense_delete, Expense_super_delete.
    run. rewrite Hpk. simpl. intros Hinv'.
    specialize (Hinv' (exp_account self) (add_balance (exp_amount self) acc)).
    unfold ledger_sum in *. simpl in *.
    rewrite delete_id in Hinv' by done.
    rewrite lookup_adjust, Hacc in Hinv'. simpl in Hinv'.
    rewrite decide_True in Hinv' by done.
    specialize (Hinv' eq_refl). simpl in Hinv'. lia.
  - intros self k acc Hpk Hnone Hacc Hamount Hinv'.
    specialize (Hinv _ _ Hacc). simpl in Hinv.
    revert Hinv'. unfold run_mutation, Income_delete, Income_super_delete.
    run. rewrite Hpk. simpl. intros Hinv'.
    specialize (Hinv' (inc_account self) (add_balance (- inc_amount self) acc)).
    unfold ledger_sum in *. simpl in *.
    rewrite delete_id in Hinv' by done.
    rewrite lookup_adjust, Hacc in Hinv'. simpl in Hinv'.
    rewrite decide_True in Hinv' by done.
    specialize (Hinv' eq_refl). simpl in Hinv'. lia.
Qed.

(** C2, at the input where the code departs from it: the lunch of
    100.00 on account A is deleted by two requests that both fetched
    it.  Before the first delete, and after it, the balance of A is the
    sum of its entries.  The second delete finds no row, returns normally, and
    credits A another 100.00: A holds 600.00 and its only entry is the
    income of 500.00. *)
Theorem stale_delete_breaks_ledger_invariant :
  consistent db_lunch ∧
  Expense_delete lunch100 db_lunch = (inr tt, db_lunch_deleted) ∧
  consistent db_lunch_deleted ∧
  ∃ db2, Expense_delete lunch100 db_lunch_deleted = (inr tt, db2) ∧
    expenses db2 = ∅ ∧
    balance <$> accounts db2 !! 1%positive = Some 60000 ∧
    ledger_sum db2 1 = 50000 ∧
    ¬ consistent db2.
Proof.
  assert (consistent db_lunch_deleted) as Hinv
    by (apply (bool_decide_unpack _); vm_compute; reflexivity).
  split; [apply (bool_decide_unpack _); vm_compute; reflexivity|].
  split; [vm_compute; reflexivity|]. split; [done|].
  eexists. split; [reflexivity|]. split; [reflexivity|].
  split; [reflexivity|]. split; [vm_compute; reflexivity|].
  destruct (stale_delete_breaks_invariant _ Hinv) as [H _].
  apply (H lunch100 1%positive (mkAccount 1 "A" 50000 false)); try done.
Qed.

(** ** Ownership of the accounts of a transfer *)

Lemma TransferSerializer_validate_owner user instance allow_system attrs r :
  TransferSerializer_validate user instance allow_system attrs = inr r →
  (∀ k a, resolved_from instance attrs = Some (k, a) → acc_user a = user) ∧
  (∀ k a, resolved_to instance attrs = Some (k, a) → acc_user a = user).
Proof.
  unfold TransferSerializer_validate, resolved_from, resolved_to.
  destruct (attr_or_instance (attr_from_account attrs) instance _)
    as [[f fa]|];
  destruct (attr_or_instance (attr_to_account attrs) instance _)
    as [[t ta]|];
  destruct (attr_or_instance (attr_amount attrs) instance _) as [amt|];
  destruct instance; simpl; try done;
  destruct (amt <=? 0); try done;
  repeat (case_bool_decide; try done);
  intros _; split; intros ? ? [= <- <-] || intros ? ? [=]; done.
Qed.

Lemma Transfer_save_stores self db row db' :
  Transfer_save self db = (inr row, db') →
  ∃ k, tr_pk row = Some k ∧ transfers db' !! k = Some row ∧
    tr_user row = tr_user self ∧ from_account row = from_account self ∧
    to_account row = to_account self ∧
    (∀ a, acc_user <$> accounts db' !! a = acc_user <$> accounts db !! a).
Proof.
  intros Hsave.
  pose proof (Transfer_save_ok_clean _ _ _ _ Hsave) as Hclean.
  destruct (Transfer_full_clean_ok _ _ Hclean) as (fa & ta & [Hf _ _ _ _ _]).
  destruct (proj2 (post_reversal_lookup self db (from_account self)))
    as [fa1 Hf1]; [eauto|].
  assert (∀ a, acc_user <$> apply_accounts self (post_reversal self db) !! a
               = acc_user <$> accounts db !! a) as Husers.
  { intros a. rewrite lookup_apply_accounts. unfold post_reversal.
    destruct (tr_pk self ≫= _); rewrite ?lookup_reverse_accounts;
      by destruct (accounts db !! a). }
  destruct (tr_pk self) as [k|] eqn:Hpk.
  - destruct (transfers db !! k) as [prev|] eqn:Hprev.
    + rewrite (Transfer_save_valid self db fa1) in Hsave; [|done| |done].
      2: { intros k' Hk'. rewrite Hpk in Hk'. injection Hk' as <-. eauto. }
      destruct (short_of_funds fa1 self); [done|].
      unfold Transfer_super_save in Hsave. rewrite Hpk in Hsave.
      injection Hsave as <- <-. exists k. simpl.
      by rewrite lookup_insert_eq.
    + destruct (Transfer_save_missing self k db Hpk Hprev) as [e He].
      congruence.
  - rewrite (Transfer_save_valid self db fa1) in Hsave; [|done| |done].
    2: { intros k' Hk'. by rewrite Hpk in Hk'. }
    destruct (short_of_funds fa1 self); [done|].
    unfold Transfer_super_save in Hsave. rewrite Hpk in Hsave.
    injection Hsave as <- <-. eexists. simpl.
    by rewrite lookup_insert_eq.
Qed.

(** C10: every transfer that [Transfer.save] stores has a from-account
    and a to-account that belong to the transfer's user, and a transfer
    naming an account of somebody else is refused, by the model's
    validation and by the serializer's.  Neither check looks at the
    [allow_system] flag: the flag lifts the ban on system accounts, and
    a user's system account is that user's own, so ownership holds with
    and without it. *)
Theorem transfer_accounts_belong_to_user :
  (∀ self db row db',
     Transfer_save self db = (inr row, db') →
     ∃ k fa ta, tr_pk row = Some k ∧ transfers db' !! k = Some row ∧
       accounts db' !! from_account row = Some fa ∧
       accounts db' !! to_account row = Some ta ∧
       acc_user fa = tr_user row ∧ acc_user ta = tr_user row) ∧
  (∀ self db a,
     accounts db !! from_account self = Some a ∨
     accounts db !! to_account self = Some a →
     acc_user a ≠ tr_user self →
     ∃ e, Transfer_save self db = (inl e, db)) ∧
  (∀ user instance allow_system attrs k a,
     resolved_from instance attrs = Some (k, a) ∨
     resolved_to instance attrs = Some (k, a) →
     acc_user a ≠ user →
     ∃ e, TransferSerializer_validate user instance allow_system attrs
          = inl e).
Proof.
  split; [|split].
  - intros self db row db' Hsave.
    pose proof (Transfer_save_ok_clean _ _ _ _ Hsave) as Hclean.
    destruct (Transfer_full_clean_ok _ _ Hclean)
      as (fa & ta & [Hf Ht _ _ Hfu Htu]).
    destruct (Transfer_save_stores _ _ _ _ Hsave)
      as (k & Hk & Hrow & Hu & Hfrom & Hto & Husers).
    pose proof (Husers (from_account self)) as H1.
    pose proof (Husers (to_account self)) as H2.
    rewrite Hf in H1. rewrite Ht in H2. rewrite Hfrom, Hto, Hu.
    destruct (accounts db' !! from_account self) as [fa'|]; [|done].
    destruct (accounts db' !! to_account self) as [ta'|]; [|done].
    simpl in *. exists k, fa', ta'. repeat split; congruence.
  - intros self db a Ha Hforeign.
    destruct (Transfer_full_clean self db) as [e|[]] eqn:Hclean.
    + exists e. by apply Transfer_save_invalid.
    + destruct (Transfer_full_clean_ok _ _ Hclean)
        as (fa & ta & [Hf Ht _ _ Hfu Htu]).
      destruct Ha; congruence.
  - intros user instance allow_system attrs k a Ha Hforeign.
    destruct (TransferSerializer_validate user instance allow_system attrs)
      as [e|r] eqn:Hval; [by eauto|].
    destruct (TransferSerializer_validate_owner _ _ _ _ _ Hval) as [H1 H2].
    destruct Ha as [Ha|Ha]; [apply H1 in Ha|apply H2 in Ha]; done.
Qed.

(** ** The external account *)

Lemma Account_get_none user system db :
  Account_get user system db = inl DoesNotExist ↔
  filter (λ kv : positive * Account,
            acc_user kv.2 = user ∧ is_system kv.2 = system) (accounts db) = ∅.
Proof.
  unfold Account_get. rewrite <- map_to_list_empty_iff.
  destruct (map_to_list _) as [|? [|? ?]]; split; intros H; done.
Qed.

(** A user who has one system account gets it back, and nothing is
    written. *)
Lemma get_external_account_existing user db row :
  Account_get user true db = inr row →
  get_external_account user db = (inr row, db).
Proof.
  intros H. unfold get_external_account, Account_get_or_create. run.
  by rewrite H.
Qed.

(** A user without a system account, and without an account that bears
    its name, gets a new one: hidden, empty, under a new id. *)
Lemma get_external_account_first user db :
  Account_get user true db = inl DoesNotExist →
  user ∈ users db →
  unique_account_name_per_user (external_account user) (accounts db) = true →
  get_external_account user db =
    (inr (next_pk (accounts db), external_account user),
     set_accounts (insert (next_pk (accounts db)) (external_account user)) db).
Proof.
  intros Hnone Huser Hname.
  unfold get_external_account, Account_get_or_create, Account_create. run.
  fold (external_account user). rewrite Hnone, Hname.
  by rewrite bool_decide_eq_true_2.
Qed.

Lemma Account_get_created user db :
  Account_get user true db = inl DoesNotExist →
  Account_get user true
    (set_accounts (insert (next_pk (accounts db)) (external_account user)) db)
  = inr (next_pk (accounts db), external_account user).
Proof.
  intros Hnone%Account_get_none. unfold Account_get. simpl.
  rewrite map_filter_insert_True by done.
  rewrite Hnone, insert_empty, map_to_list_singleton. done.
Qed.

(** The second call returns the account the first one made and writes
    nothing: two calls leave what one call leaves. *)
Lemma get_external_account_idempotent user db row db' :
  Account_get user true db = inl DoesNotExist →
  get_external_account user db = (inr row, db') →
  get_external_account user db' = (inr row, db').
Proof.
  intros Hnone Hfirst.
  assert (row = (next_pk (accounts db), external_account user) ∧
          db' = set_accounts
                  (insert (next_pk (accounts db)) (external_account user)) db)
    as [-> ->].
  { revert Hfirst.
    unfold get_external_account, Account_get_or_create, Account_create. run.
    fold (external_account user). rewrite Hnone.
    destruct (bool_decide (user ∈ users db) && _); simpl;
      [|by rewrite Hnone].
    by intros [= <- <-]. }
  apply get_external_account_existing. by apply Account_get_created.
Qed.

(** When the user already has an ordinary account called
    "External (System)", the INSERT is refused and the call raises. *)
Lemma get_external_account_clash user db k a :
  Account_get user true db = inl DoesNotExist →
  accounts db !! k = Some a →
  acc_user a = user →
  acc_name a = "External (System)" →
  get_external_account user db = (inl IntegrityError, db).
Proof.
  intros Hnone Hk Hu Hn.
  unfold get_external_account, Account_get_or_create, Account_create. run.
  fold (external_account user). rewrite Hnone.
  assert (unique_account_name_per_user (external_account user) (accounts db)
          = false) as ->.
  { apply bool_decide_eq_false_2. intros Hall.
    apply (Hall k a Hk). by split. }
  rewrite andb_false_r. simpl. by rewrite Hnone.
Qed.

(** C7, at the input where the code departs from it: the first call for
    a user whose own account already has the fixed name creates nothing
    and raises [IntegrityError]. *)
Theorem get_external_account_name_taken :
  get_external_account 1 db_name_taken = (inl IntegrityError, db_name_taken).
Proof.
  apply (get_external_account_clash 1 db_name_taken 1
           (mkAccount 1 "External (System)" 0 false)); reflexivity.
Qed.

(** ** Worked examples *)

(** The example databases are what the code makes of one another. *)
Example transfer300_saved :
  Transfer_save transfer300 db_AB = (inr stored300, db_AB_300).
Proof. vm_compute. reflexivity. Qed.

Example consistent_db_AB : consistent db_AB.
Proof. apply (bool_decide_unpack _). vm_compute. reflexivity. Qed.

(** The stored transfer of 300.00 raised to 2000.00: A, with the 300.00
    back, holds 1000.00. *)
Lemma failed_transfer_update_witness :
  Transfer_save_body update2000 db_AB_300 = (inl insufficient_funds, db_AB_300) ∧
  Transfer_save update2000 db_AB_300 = (inl insufficient_funds, db_AB_300).
Proof.
  destruct (failed_transfer_update_changes_nothing update2000 1%positive
              stored300 db_AB_300 (mkAccount 1 "A" 100000 false)) as [_ H].
  - reflexivity.
  - reflexivity.
  - vm_compute. reflexivity.
  - reflexivity.
  - simpl. lia.
  - apply H. vm_compute. reflexivity.
Defined.

(** Deleting the gift of 200.00 on B, with the instance as stored. *)
Lemma mutations_preserve_ledger_invariant_witness :
  consistent
    (run_mutation
       (DeleteIncome (mkIncome (Some 2%positive) 1 2 20000 "Gift")) db_AB).
Proof.
  destruct mutations_preserve_ledger_invariant as [H _]. apply H.
  - apply (bool_decide_unpack _). vm_compute. reflexivity.
  - exists 2%positive, (mkIncome (Some 2%positive) 1 2 20000 "Gift").
    repeat split; reflexivity.
Defined.


(** The lunch of 100.00 on an account that held 500.00, edited to
    150.00: 350.00 are left. *)
Lemma update_is_reverse_then_reapply_witness :
  ∃ db', Expense_save lunch150 db_lunch = (inr lunch150, db') ∧
    balance <$> accounts db' !! 1%positive = Some 35000.
Proof.
  destruct update_is_reverse_then_reapply as [H _].
  destruct (H lunch150 1%positive
              (mkExpense (Some 1%positive) 1 1 1 10000 "Lunch") db_lunch)
    as (db' & Hsave & _ & _ & _ & Hbal).
  - vm_compute. reflexivity.
  - reflexivity.
  - reflexivity.
  - exists db'. split; [exact Hsave|]. rewrite Hbal. reflexivity.
Defined.

(** A salary of 50000.00 out of an external account that holds 0.00. *)
Lemma system_account_skips_funds_check_witness :
  ∃ row db' fa', Transfer_save salary db_salary = (inr row, db') ∧
    accounts db' !! 2%positive = Some fa' ∧ balance fa' = -5000000.
Proof.
  destruct (system_account_skips_funds_check salary db_salary)
    as (_ & fa1 & Hf1 & Hsys & _).
  - vm_compute. reflexivity.
  - intros k Hk. discriminate Hk.
  - apply (bool_decide_unpack _). vm_compute. reflexivity.
  - apply (bool_decide_unpack _). vm_compute. reflexivity.
  - vm_compute in Hf1. injection Hf1 as <-.
    destruct (Hsys eq_refl) as (row & db' & fa' & Hsave & Hfa' & Hbal).
    + apply (bool_decide_unpack _). vm_compute. reflexivity.
    + exists row, db', fa'. repeat split; assumption.
Defined.

(** The transfer of 300.00 from A (1000.00 to 700.00) to B (200.00 to
    500.00), deleted: A is back at 1000.00 and B at 200.00. *)
Lemma Transfer_delete_reverses_witness :
  Transfer_delete stored300 db_AB_300 = (inr tt, db_AB).
Proof.
  destruct (Transfer_delete_reverses stored300 1%positive stored300 db_AB_300)
    as (db' & Hdel & _ & _ & Hback).
  - reflexivity.
  - reflexivity.
  - rewrite Hdel. f_equal. apply (Hback transfer300 db_AB).
    + reflexivity.
    + vm_compute. reflexivity.
Defined.

(** An expense of 0.00. *)
Lemma validation_failure_changes_nothing_witness :
  ∃ e, Expense_full_clean (mkExpense None 1 1 1 0 "Free") db_AB = inl e ∧
       Expense_save (mkExpense None 1 1 1 0 "Free") db_AB = (inl e, db_AB).
Proof.
  destruct validation_failure_changes_nothing as [H _].
  apply H. intros (account & category & [_ _ _ _ Hpos _]).
  simpl in Hpos. lia.
Defined.

(** User 1 sending 10.00 to an account of user 2. *)
Lemma transfer_accounts_belong_to_user_witness :
  ∃ e, Transfer_save (mkTransfer None 1 1 2 1000) db_two_users
       = (inl e, db_two_users).
Proof.
  destruct transfer_accounts_belong_to_user as (_ & H & _).
  apply (H (mkTransfer None 1 1 2 1000) db_two_users
           (mkAccount 2 "Theirs" 0 false)).
  - right. reflexivity.
  - simpl. intros Heq. discriminate Heq.
Defined.

(** Edit correctness: an expense of 100.00 takes A from 500.00 to
    400.00; edited to 150.00 it leaves 350.00. *)
Example expense_edit_100_to_150 :
  (let '(r, db) := (e ← Expense_save (mkExpense None 1 1 1 10000 "Lunch");
                    mret tt) db_500 in balances r db)
  = (inr tt, [40000; 0]) ∧
  (let '(r, db) :=
     (e ← Expense_save (mkExpense None 1 1 1 10000 "Lunch");
      Expense_save (mkExpense (exp_pk e) 1 1 1 15000 "Lunch");;
      mret tt) db_500 in balances r db)
  = (inr tt, [35000; 0]).
Proof. split; vm_compute; reflexivity. Qed.

(** Reassignment correctness: an income of 200.00 on A, then moved to B:
    A is where it was before the income, B is 200.00 up. *)
Example income_moved_from_A_to_B :
  (let '(r, db) :=
     (i ← Income_save (mkIncome None 1 1 20000 "Refund");
      Income_save (mkIncome (inc_pk i) 1 2 20000 "Refund");;
      mret tt) db_500 in balances r db)
  = (inr tt, [50000; 20000]).
Proof. vm_compute. reflexivity. Qed.

(** Transfer reversal on delete: 300.00 from A to B, then deleted. *)
Example transfer_created_then_deleted :
  (let '(r, db) := (t ← Transfer_save transfer300; mret tt) db_AB
   in balances r db) = (inr tt, [70000; 50000]) ∧
  (t ← Transfer_save transfer300; Transfer_delete t) db_AB = (inr tt, db_AB).
Proof. split; vm_compute; reflexivity. Qed.

(** Uniqueness: the second call for a user returns the account of the
    first and leaves the table as the first call left it. *)
Example external_account_twice :
  (a ← get_external_account 1; b ← get_external_account 1;
   mret (bool_decide (a.1 = b.1))) db_AB
  = (get_external_account 1;; mret true) db_AB.
Proof. vm_compute. reflexivity. Qed.

(** A salary of 50000.00 from a new external account: saved, and the
    external account stands at -50000.00. *)
Example salary_from_new_external_account :
  (let '(r, db) :=
     (ext ← get_external_account 1;
      Transfer_save (mkTransfer None 1 ext.1 1 5000000);;
      mret tt) db_500 in
   (r, from_option balance 0 (accounts db !! 3%positive)))
  = (inr tt, -5000000).
Proof. vm_compute. reflexivity. Qed.

(** * Further properties of the code *)

(** ** Entries: creation, deletion, missing rows *)

Lemma adjust_zero k (accs : gmap positive Account) : adjust k 0 accs = accs.
Proof.
  apply map_eq. intros a. rewrite lookup_adjust.
  destruct (accs !! a); simpl; [|done]. f_equal.
  case_decide; apply add_balance_0.
Qed.

Lemma adjust_back k d (accs : gmap positive Account) :
  adjust k d (adjust k (- d) accs) = accs ∧
  adjust k (- d) (adjust k d accs) = accs.
Proof.
  rewrite !adjust_adjust_same.
  replace (- d + d) with 0 by lia. replace (d + - d) with 0 by lia.
  by rewrite adjust_zero.
Qed.

Lemma Expense_save_ok_clean self db row db' :
  Expense_save self db = (inr row, db') → Expense_full_clean self db = inr tt.
Proof.
  unfold Expense_save. run.
  by destruct (Expense_full_clean self db) as [e|[]].
Qed.

Lemma Income_save_ok_clean self db row db' :
  Income_save self db = (inr row, db') → Income_full_clean self db = inr tt.
Proof.
  unfold Income_save. run.
  by destruct (Income_full_clean self db) as [e|[]].
Qed.

(** X1: an expense or an income that was just created and is deleted
    again leaves the database exactly as it was before the creation:
    the balance is back and the row is gone. *)
Theorem entry_created_then_deleted :
  (∀ new db row db1,
     exp_pk new = None →
     Expense_save new db = (inr row, db1) →
     Expense_delete row db1 = (inr tt, db)) ∧
  (∀ new db row db1,
     inc_pk new = None →
     Income_save new db = (inr row, db1) →
     Income_delete row db1 = (inr tt, db)).
Proof.
  split.
  - intros new db row db1 Hpk Hsave.
    pose proof (Expense_save_ok_clean _ _ _ _ Hsave) as Hclean.
    rewrite Expense_save_create in Hsave by done.
    unfold Expense_super_save in Hsave. rewrite Hpk in Hsave.
    injection Hsave as <- <-.
    unfold Expense_delete, Expense_super_delete. run. f_equal.
    destruct db as [us accs cats exps incs trs].
    unfold set_expenses, set_accounts. simpl. f_equal.
    + apply adjust_back.
    + apply delete_insert_id, next_pk_fresh.
  - intros new db row db1 Hpk Hsave.
    pose proof (Income_save_ok_clean _ _ _ _ Hsave) as Hclean.
    rewrite Income_save_create in Hsave by done.
    unfold Income_super_save in Hsave. rewrite Hpk in Hsave.
    injection Hsave as <- <-.
    unfold Income_delete, Income_super_delete. run. f_equal.
    destruct db as [us accs cats exps incs trs].
    unfold set_incomes, set_accounts. simpl. f_equal.
    + apply adjust_back.
    + apply delete_insert_id, next_pk_fresh.
Qed.

(** X2: [Expense.save] and [Income.save] have no funds check.  A new
    expense that passes validation, on an account whose balance is
    within the twelve digits of the column and stays within them, is
    saved under an id that was not in use: its account loses the amount,
    whether or not it holds that much (so it may go below zero), and no
    other account changes.  A new income is saved likewise and its
    account gains the amount. *)
Theorem new_entry_is_saved_without_funds_check :
  (∀ self db acc,
     Expense_full_clean self db = inr tt →
     exp_pk self = None →
     accounts db !! exp_account self = Some acc →
     decimal_12_2 (balance acc) = true →
     decimal_12_2 (balance acc - exp_amount self) = true →
     ∃ k row db', Expense_save self db = (inr row, db') ∧
       expenses db !! k = None ∧ exp_pk row = Some k ∧
       expenses db' = <[k := row]> (expenses db) ∧
       accounts db' !! exp_account self
       = Some (add_balance (- exp_amount self) acc) ∧
       (∀ a, a ≠ exp_account self → accounts db' !! a = accounts db !! a)) ∧
  (∀ self db acc,
     Income_full_clean self db = inr tt →
     inc_pk self = None →
     accounts db !! inc_account self = Some acc →
     decimal_12_2 (balance acc) = true →
     decimal_12_2 (balance acc + inc_amount self) = true →
     ∃ k row db', Income_save self db = (inr row, db') ∧
       incomes db !! k = None ∧ inc_pk row = Some k ∧
       incomes db' = <[k := row]> (incomes db) ∧
       accounts db' !! inc_account self
       = Some (add_balance (inc_amount self) acc) ∧
       (∀ a, a ≠ inc_account self → accounts db' !! a = accounts db !! a)).
Proof.
  split.
  - intros self db acc Hclean Hpk Hacc _ _.
    rewrite Expense_save_create by done.
    unfold Expense_super_save. rewrite Hpk.
    exists (next_pk (expenses db)). eexists _, _.
    split; [done|]. simpl. split; [apply next_pk_fresh|].
    split; [done|]. split; [done|]. split.
    + rewrite lookup_adjust, Hacc. simpl. by rewrite decide_True.
    + intros a Ha. rewrite lookup_adjust. rewrite decide_False by done.
      destruct (accounts db !! a); simpl; by rewrite ?add_balance_0.
  - intros self db acc Hclean Hpk Hacc _ _.
    rewrite Income_save_create by done.
    unfold Income_super_save. rewrite Hpk.
    exists (next_pk (incomes db)). eexists _, _.
    split; [done|]. simpl. split; [apply next_pk_fresh|].
    split; [done|]. split; [done|]. split.
    + rewrite lookup_adjust, Hacc. simpl. by rewrite decide_True.
    + intros a Ha. rewrite lookup_adjust. rewrite decide_False by done.
      destruct (accounts db !! a); simpl; by rewrite ?add_balance_0.
Qed.

Lemma Transfer_save_row_gone self k db :
  Transfer_full_clean self db = inr tt →
  tr_pk self = Some k → transfers db !! k = None →
  Transfer_save self db = (inl DoesNotExist, db).
Proof.
  intros Hclean Hpk Hnone.
  destruct (Transfer_full_clean_ok _ _ Hclean)
    as (fa & ta & [Hf Ht Hne _ _ _]).
  unfold Transfer_save, Transfer_save_body. run. rewrite Hclean.
  rewrite (locked_both _ _ _ fa ta) by done. simpl.
  by rewrite Hpk, Hnone.
Qed.

(** X3: saving an instance that has an id under which nothing is stored
    (the row was deleted in the meantime) raises [DoesNotExist], for all
    three kinds of entry, and changes nothing: the row is not created
    anew. *)
Theorem save_without_stored_row :
  (∀ self k db,
     Expense_full_clean self db = inr tt →
     exp_pk self = Some k → expenses db !! k = None →
     Expense_save self db = (inl DoesNotExist, db)) ∧
  (∀ self k db,
     Income_full_clean self db = inr tt →
     inc_pk self = Some k → incomes db !! k = None →
     Income_save self db = (inl DoesNotExist, db)) ∧
  (∀ self k db,
     Transfer_full_clean self db = inr tt →
     tr_pk self = Some k → transfers db !! k = None →
     Transfer_save self db = (inl DoesNotExist, db)).
Proof.
  split; [|split].
  - intros self k db Hclean Hpk Hnone.
    unfold Expense_save, Expense_save_balances. run.
    by rewrite Hclean, Hpk, Hnone.
  - intros self k db Hclean Hpk Hnone.
    unfold Income_save, Income_save_balances. run.
    by rewrite Hclean, Hpk, Hnone.
  - apply Transfer_save_row_gone.
Qed.

(** X4: deleting an instance that was never saved raises and changes
    nothing: [Expense.delete] and [Income.delete] raise the [ValueError]
    of the framework after their balance update, which the transaction
    takes back; [Transfer.delete] raises [DoesNotExist] at its lookup, as
    it does for an id under which nothing is stored. *)
Theorem delete_of_unsaved_instance :
  (∀ self db, exp_pk self = None →
     Expense_delete self db = (inl ValueError, db)) ∧
  (∀ self db, inc_pk self = None →
     Income_delete self db = (inl ValueError, db)) ∧
  (∀ self db, tr_pk self ≫= (λ k, transfers db !! k) = None →
     Transfer_delete self db = (inl DoesNotExist, db)).
Proof.
  split; [|split].
  - intros self db Hpk. unfold Expense_delete, Expense_super_delete. run.
    by rewrite Hpk.
  - intros self db Hpk. unfold Income_delete, Income_super_delete. run.
    by rewrite Hpk.
  - intros self db Hnone. unfold Transfer_delete. run.
    destruct (tr_pk self) as [k|]; simpl in *; [|done].
    by rewrite Hnone.
Qed.

(** X5: [Expense.delete] and [Income.delete] do not look the row up.
    Called on an instance whose row is already gone (a second copy of a
    deleted entry), they return normally and move the balance once more
    by the instance's amount; the tables of entries stay as they are. *)
Theorem delete_of_deleted_entry_moves_balance_again :
  (∀ self k db,
     exp_pk self = Some k → expenses db !! k = None →
     ∃ db', Expense_delete self db = (inr tt, db') ∧
       expenses db' = expenses db ∧
       (∀ a, accounts db' !! a =
          add_balance (if decide (exp_account self = a)
                       then exp_amount self else 0)
          <$> accounts db !! a)) ∧
  (∀ self k db,
     inc_pk self = Some k → incomes db !! k = None →
     ∃ db', Income_delete self db = (inr tt, db') ∧
       incomes db' = incomes db ∧
       (∀ a, accounts db' !! a =
          add_balance (if decide (inc_account self = a)
                       then - inc_amount self else 0)
          <$> accounts db !! a)).
Proof.
  split.
  - intros self k db Hpk Hnone.
    unfold Expense_delete, Expense_super_delete. run. rewrite Hpk.
    eexists. split; [done|]. simpl.
    split; [by apply delete_id|]. intros a. apply lookup_adjust.
  - intros self k db Hpk Hnone.
    unfold Income_delete, Income_super_delete. run. rewrite Hpk.
    eexists. split; [done|]. simpl.
    split; [by apply delete_id|]. intros a. apply lookup_adjust.
Qed.

(** ** [Transfer.save]: its outcomes, and the money it moves *)

(** X6: as long as the balances are within the twelve digits of the
    column (those stored, those with the stored effect taken back, and
    those with the new effect applied), [Transfer.save] ends in one of
    four ways: [full_clean] raises; the instance has an id under which
    nothing is stored ([DoesNotExist]); the from-account is an ordinary
    account that, with the stored effect taken back, holds less than the
    amount (insufficient funds); or the transfer is saved and the
    accounts are the reversed ones with the new effect applied.  In the
    three failing cases the database is unchanged.  Once [full_clean]
    has passed, both rows are there to be locked, so the "Both accounts
    must exist." test of [save] cannot fire. *)
Theorem Transfer_save_outcomes self db :
  balances_fit (accounts db) →
  balances_fit (post_reversal self db) →
  balances_fit (apply_accounts self (post_reversal self db)) →
  ((∃ e, Transfer_full_clean self db = inl e ∧
         Transfer_save self db = (inl e, db)) ∨
   (∃ k, tr_pk self = Some k ∧ transfers db !! k = None ∧
         Transfer_save self db = (inl DoesNotExist, db)) ∨
   (∃ fa1, post_reversal self db !! from_account self = Some fa1 ∧
           is_system fa1 = false ∧ balance fa1 < tr_amount self ∧
           Transfer_save self db = (inl insufficient_funds, db)) ∨
   (∃ row db', Transfer_save self db = (inr row, db') ∧
               accounts db' = apply_accounts self (post_reversal self db))) ∧
  (Transfer_full_clean self db = inr tt →
   size (select_for_update_in (from_account self) (to_account self)
           (accounts db)) = 2%nat).
Proof.
  intros _ _ _.
  split.
  - destruct (Transfer_full_clean self db) as [e|[]] eqn:Hclean.
    { left. exists e. split; [done|]. by apply Transfer_save_invalid. }
    right.
    destruct (tr_pk self ≫= (λ k, transfers db !! k)) as [prev|] eqn:Hprev.
    + right.
      destruct (Transfer_full_clean_ok _ _ Hclean)
        as (fa & ta & [Hf _ _ _ _ _]).
      destruct (proj2 (post_reversal_lookup self db (from_account self)))
        as [fa1 Hf1]; [eauto|].
      rewrite (Transfer_save_valid self db fa1); [|done| |done].
      2: { intros k Hk. rewrite Hk in Hprev. simpl in Hprev. eauto. }
      unfold short_of_funds.
      destruct (is_system fa1) eqn:Hsys; simpl.
      * right. unfold Transfer_super_save.
        destruct (tr_pk self); eexists _, _; split; done.
      * destruct (Z.ltb_spec (balance fa1) (tr_amount self)).
        -- left. exists fa1. done.
        -- right. unfold Transfer_super_save.
           destruct (tr_pk self); eexists _, _; split; done.
    + destruct (tr_pk self) as [k|] eqn:Hpk; simpl in Hprev.
      * left. exists k. split; [done|]. split; [done|].
        by apply (Transfer_save_row_gone self k db).
      * right.
        destruct (Transfer_full_clean_ok _ _ Hclean)
          as (fa & ta & [Hf _ _ _ _ _]).
        assert (post_reversal self db !! from_account self = Some fa) as Hf1.
        { unfold post_reversal. by rewrite Hpk. }
        rewrite (Transfer_save_valid self db fa); [|done| |done].
        2: { intros k Hk. by rewrite Hpk in Hk. }
        unfold short_of_funds.
        destruct (is_system fa) eqn:Hsys; simpl.
        -- right. unfold Transfer_super_save. rewrite Hpk.
           eexists _, _; split; done.
        -- destruct (Z.ltb_spec (balance fa) (tr_amount self)).
           ++ left. exists fa. done.
           ++ right. unfold Transfer_super_save. rewrite Hpk.
              eexists _, _; split; done.
  - intros Hclean.
    destruct (Transfer_full_clean_ok _ _ Hclean)
      as (fa & ta & [Hf Ht Hne _ _ _]).
    by apply (locked_both _ _ _ fa ta).
Qed.

Lemma total_balance_adjust k d (accs : gmap positive Account) :
  total balance (adjust k d accs)
  = total balance accs + match accs !! k with Some _ => d | None => 0 end.
Proof.
  destruct (accs !! k) as [x|] eqn:Hk.
  - assert (adjust k d accs = <[k:=add_balance d x]> accs) as ->.
    { apply map_eq. intros a. rewrite lookup_adjust.
      destruct (decide (k = a)) as [<-|Hne].
      - by rewrite Hk, lookup_insert_eq.
      - rewrite lookup_insert_ne by done.
        destruct (accs !! a); simpl; by rewrite ?add_balance_0. }
    rewrite (total_insert_old _ _ k x) by done. simpl. lia.
  - unfold adjust. rewrite alter_id'; [lia|done].
Qed.

Lemma total_balance_pair f t x (accs : gmap positive Account) :
  is_Some (accs !! f) → is_Some (accs !! t) →
  total balance (adjust t x (adjust f (- x) accs)) = total balance accs.
Proof.
  intros [fa Hf] [ta Ht]. rewrite !total_balance_adjust.
  rewrite lookup_adjust, Ht, Hf. simpl. lia.
Qed.

Lemma total_balance_reverse prev (accs : gmap positive Account) :
  is_Some (accs !! from_account prev) → is_Some (accs !! to_account prev) →
  total balance (reverse_accounts prev accs) = total balance accs.
Proof.
  intros [fa Hf] [ta Ht]. unfold reverse_accounts.
  rewrite !total_balance_adjust. rewrite lookup_adjust, Ht, Hf. simpl. lia.
Qed.

(** X7: a transfer neither makes nor loses money.  In a database whose
    stored transfers name accounts that exist, [Transfer.save] and
    [Transfer.delete] leave the sum of all balances as it was, whether
    they go through or raise. *)
Theorem transfers_conserve_total_balance self db :
  referential db →
  total_balance (Transfer_save self db).2 = total_balance db ∧
  total_balance (Transfer_delete self db).2 = total_balance db.
Proof.
  intros (_ & _ & Href). split.
  - destruct (Transfer_save self db) as [[e|row] db'] eqn:Hsave.
    { by rewrite (Transfer_save_err _ _ _ _ Hsave). }
    pose proof (Transfer_save_ok_clean _ _ _ _ Hsave) as Hclean.
    destruct (Transfer_full_clean_ok _ _ Hclean)
      as (fa & ta & [Hf Ht _ _ _ _]).
    destruct (Transfer_save_stores _ _ _ _ Hsave) as (k & _).
    destruct (proj2 (post_reversal_lookup self db (from_account self)))
      as [fa1 Hf1]; [eauto|].
    assert (∀ k, tr_pk self = Some k → is_Some (transfers db !! k)) as Hstored.
    { intros k' Hpk. destruct (transfers db !! k') eqn:Hprev; [done|].
      destruct (Transfer_save_missing self k' db Hpk Hprev) as [e He].
      congruence. }
    rewrite (Transfer_save_valid self db fa1) in Hsave by done.
    destruct (short_of_funds fa1 self); [done|]. simpl.
    assert (total_balance db' = total balance
              (apply_accounts self (post_reversal self db))) as ->.
    { unfold Transfer_super_save in Hsave.
      by destruct (tr_pk self); injection Hsave as _ <-. }
    unfold apply_accounts. rewrite total_balance_pair.
    + unfold post_reversal, total_balance.
      destruct (tr_pk self ≫= _) as [prev|] eqn:Hprev; [|done].
      destruct (tr_pk self) as [k'|]; simpl in Hprev; [|done].
      destruct (Href k' prev Hprev) as [Hpf Hpt].
      by apply total_balance_reverse.
    + apply post_reversal_lookup. eauto.
    + apply post_reversal_lookup. eauto.
  - destruct (tr_pk self ≫= (λ k, transfers db !! k)) as [prev|] eqn:Hprev.
    + destruct (tr_pk self) as [k|] eqn:Hpk; simpl in Hprev; [|done].
      rewrite (Transfer_delete_run self k prev) by done.
      destruct (Href k prev Hprev) as [Hpf Hpt].
      unfold total_balance. simpl. by apply total_balance_reverse.
    + unfold Transfer_delete. run.
      destruct (tr_pk self) as [k|]; simpl in *; [|done].
      by rewrite Hprev.
Qed.

Lemma transfers_conserve_total_balance_witness :
  total_balance (Transfer_save update1000 db_AB_300).2
  = total_balance db_AB_300 ∧
  total_balance (Transfer_delete stored300 db_AB_300).2
  = total_balance db_AB_300.
Proof.
  split.
  - apply (transfers_conserve_total_balance update1000 db_AB_300).
    apply (bool_decide_unpack _). vm_compute. reflexivity.
  - apply (transfers_conserve_total_balance stored300 db_AB_300).
    apply (bool_decide_unpack _). vm_compute. reflexivity.
Defined.

(** ** What no mutation does to the accounts and to the stored rows *)

Lemma only_balances_moved_refl db : only_balances_moved db db.
Proof.
  split; [done|split; [done|]]. exists (λ _, 0). intros a.
  destruct (accounts db !! a); simpl; by rewrite ?add_balance_0.
Qed.

Lemma only_balances_moved_adjust db db1 k d :
  only_balances_moved db db1 →
  only_balances_moved db (set_accounts (adjust k d) db1).
Proof.
  intros (Hu & Hc & delta & Ha). split; [done|split; [done|]].
  exists (λ a, delta a + if decide (k = a) then d else 0). intros a. simpl.
  by rewrite lookup_adjust, Ha, fmap_add_balance.
Qed.

Lemma only_balances_moved_accounts db db1 db2 :
  only_balances_moved db db1 →
  users db2 = users db1 → categories db2 = categories db1 →
  accounts db2 = accounts db1 →
  only_balances_moved db db2.
Proof.
  intros (Hu & Hc & delta & Ha) Hu2 Hc2 Ha2.
  split; [congruence|split; [congruence|]]. exists delta. intros a.
  by rewrite Ha2.
Qed.

Ltac balances_moved :=
  unfold Expense_update_accounts, Income_update_accounts, apply_accounts,
    reverse_accounts;
  try case_bool_decide;
  repeat first
    [ apply only_balances_moved_refl
    | apply (only_balances_moved_adjust _ _ _ _)
    | match goal with
      | |- only_balances_moved ?db (set_accounts (λ m, adjust ?k ?d (@?f m)) ?db1) =>
          change (only_balances_moved db
                    (set_accounts (adjust k d) (set_accounts f db1)))
      end ].

Lemma Expense_save_step self db : entry_step db (Expense_save self db).2.
Proof.
  destruct (Expense_full_clean self db) as [e|[]] eqn:Hclean.
  { rewrite (Expense_save_invalid _ _ _ Hclean). constructor. }
  destruct (Expense_full_clean_ok _ _ Hclean)
    as (account & category & [Ha _ Hu _ Hpos Hsys]).
  assert (ordinary_account_of db (exp_user self) (exp_account self)) as Hown.
  { by exists account. }
  destruct (exp_pk self) as [k|] eqn:Hpk.
  - destruct (expenses db !! k) as [prev|] eqn:Hprev.
    + rewrite (Expense_save_update self k prev) by done. simpl.
      apply step_put_expense; try done. balances_moved.
    + destruct (Expense_save_missing self k db Hpk Hprev) as [e ->].
      constructor.
  - rewrite Expense_save_create by done.
    unfold Expense_super_save. rewrite Hpk. simpl.
    apply step_put_expense; try done. balances_moved.
Qed.

Lemma Income_save_step self db : entry_step db (Income_save self db).2.
Proof.
  destruct (Income_full_clean self db) as [e|[]] eqn:Hclean.
  { rewrite (Income_save_invalid _ _ _ Hclean). constructor. }
  destruct (Income_full_clean_ok _ _ Hclean) as (account & [Ha Hu Hpos Hsys]).
  assert (ordinary_account_of db (inc_user self) (inc_account self)) as Hown.
  { by exists account. }
  destruct (inc_pk self) as [k|] eqn:Hpk.
  - destruct (incomes db !! k) as [prev|] eqn:Hprev.
    + rewrite (Income_save_update self k prev) by done. simpl.
      apply step_put_income; try done. balances_moved.
    + destruct (Income_save_missing self k db Hpk Hprev) as [e ->].
      constructor.
  - rewrite Income_save_create by done.
    unfold Income_super_save. rewrite Hpk. simpl.
    apply step_put_income; try done. balances_moved.
Qed.

Lemma Expense_delete_step self db : entry_step db (Expense_delete self db).2.
Proof.
  unfold Expense_delete, Expense_super_delete. run.
  destruct (exp_pk self) as [k|]; simpl; [|constructor].
  apply step_drop_expense; [balances_moved|done].
Qed.

Lemma Income_delete_step self db : entry_step db (Income_delete self db).2.
Proof.
  unfold Income_delete, Income_super_delete. run.
  destruct (inc_pk self) as [k|]; simpl; [|constructor].
  apply step_drop_income; [balances_moved|done].
Qed.

Lemma Transfer_save_step self db : entry_step db (Transfer_save self db).2.
Proof.
  destruct (Transfer_save self db) as [[e|row] db'] eqn:Hsave.
  { rewrite (Transfer_save_err _ _ _ _ Hsave). constructor. }
  pose proof (Transfer_save_ok_clean _ _ _ _ Hsave) as Hclean.
  destruct (Transfer_full_clean_ok _ _ Hclean)
    as (fa & ta & [Hf Ht Hne Hpos Hfu Htu]).
  destruct (proj2 (post_reversal_lookup self db (from_account self)))
    as [fa1 Hf1]; [eauto|].
  assert (∀ k, tr_pk self = Some k → is_Some (transfers db !! k)) as Hstored.
  { intros k Hpk. destruct (transfers db !! k) eqn:Hprev; [done|].
    destruct (Transfer_save_missing self k db Hpk Hprev) as [e He].
    congruence. }
  rewrite (Transfer_save_valid self db fa1) in Hsave by done.
  destruct (short_of_funds fa1 self); [done|].
  assert (only_balances_moved db
            (set_accounts (λ _, apply_accounts self (post_reversal self db))
               db)) as Hmoved.
  { unfold post_reversal. destruct (tr_pk self ≫= _) as [prev|].
    - change (only_balances_moved db
                (set_accounts (λ m, apply_accounts self
                                      (reverse_accounts prev m)) db)).
      balances_moved.
    - change (only_balances_moved db
                (set_accounts (apply_accounts self) db)).
      balances_moved. }
  unfold Transfer_super_save in Hsave.
  destruct (tr_pk self) as [k|] eqn:Hpk; injection Hsave as _ <-; simpl;
    apply step_put_transfer; try done; simpl; by eexists.
Qed.

Lemma Transfer_delete_step self db : entry_step db (Transfer_delete self db).2.
Proof.
  destruct (tr_pk self) as [k|] eqn:Hpk.
  - destruct (transfers db !! k) as [prev|] eqn:Hprev.
    + rewrite (Transfer_delete_run self k prev) by done. simpl.
      apply step_drop_transfer; [balances_moved|done].
    + unfold Transfer_delete. run. rewrite Hpk, Hprev. constructor.
  - unfold Transfer_delete. run. rewrite Hpk. constructor.
Qed.

Lemma run_mutation_step m db : entry_step db (run_mutation m db).
Proof.
  destruct m; simpl.
  - apply Expense_save_step.
  - apply Expense_delete_step.
  - apply Income_save_step.
  - apply Income_delete_step.
  - apply Transfer_save_step.
  - apply Transfer_delete_step.
Qed.

Lemma entry_step_only_balances db db' :
  entry_step db db' → only_balances_moved db db'.
Proof.
  destruct 1; try apply only_balances_moved_refl;
    by apply (only_balances_moved_accounts db db1).
Qed.

(** X8: a mutation of a ledger entry (save or delete of an expense, an
    income or a transfer, accepted or refused) never creates, removes,
    renames or re-owns an account, never turns an account into a system
    account or back, and leaves users and categories alone: all it does
    to the accounts is move balances. *)
Theorem mutations_only_move_balances m db :
  only_balances_moved db (run_mutation m db).
Proof. apply entry_step_only_balances, run_mutation_step. Qed.

Lemma account_of_moved db db' user a :
  only_balances_moved db db' →
  (account_of db user a → account_of db' user a) ∧
  (ordinary_account_of db user a → ordinary_account_of db' user a).
Proof.
  intros (_ & _ & delta & Ha). split.
  - intros (acc & Hacc & Hu). exists (add_balance (delta a) acc).
    by rewrite Ha, Hacc.
  - intros (acc & Hacc & Hu & Hs). exists (add_balance (delta a) acc).
    by rewrite Ha, Hacc.
Qed.

Lemma entries_owned_moved db db1 :
  only_balances_moved db db1 → same_entries db db1 →
  entries_owned db → entries_owned db1.
Proof.
  intros Hmoved (He & Hi & Ht) (Hoe & Hoi & Hot).
  split; [|split]; rewrite ?He, ?Hi, ?Ht.
  - intros k e Hk. by apply (account_of_moved db), (Hoe k e).
  - intros k i Hk. by apply (account_of_moved db), (Hoi k i).
  - intros k t Hk. destruct (Hot k t Hk).
    split; by apply (account_of_moved db).
Qed.

Lemma rows_well_formed_same db db1 :
  same_entries db db1 → rows_well_formed db → rows_well_formed db1.
Proof.
  intros (He & Hi & Ht). unfold rows_well_formed. by rewrite He, Hi, Ht.
Qed.

Lemma entry_step_rows db db' :
  entry_step db db' → rows_well_formed db → rows_well_formed db'.
Proof.
  intros Hstep Hwf. destruct Hstep as
    [|db1 k row _ Hsame Hpk Hpos _|db1 k _ Hsame
     |db1 k row _ Hsame Hpk Hpos _|db1 k _ Hsame
     |db1 k row _ Hsame Hpk Hpos Hne _ _|db1 k _ Hsame]; [done|..];
    destruct (rows_well_formed_same _ _ Hsame Hwf) as (He & Hi & Ht);
    (split; [|split]); simpl; try done.
  - by apply map_Forall_insert_2.
  - by apply map_Forall_delete.
  - by apply map_Forall_insert_2.
  - by apply map_Forall_delete.
  - by apply map_Forall_insert_2.
  - by apply map_Forall_delete.
Qed.

Lemma entry_step_owned db db' :
  entry_step db db' → entries_owned db → entries_owned db'.
Proof.
  intros Hstep Hown. destruct Hstep as
    [|db1 k row Hmoved Hsame _ _ Hacc|db1 k Hmoved Hsame
     |db1 k row Hmoved Hsame _ _ Hacc|db1 k Hmoved Hsame
     |db1 k row Hmoved Hsame _ _ _ Hf Ht|db1 k Hmoved Hsame]; [done|..];
    destruct (entries_owned_moved _ _ Hmoved Hsame Hown) as (He & Hi & Ht');
    (split; [|split]); simpl; try done.
  - apply map_Forall_insert_2; [|done].
    by apply (account_of_moved db db1).
  - by apply map_Forall_delete.
  - apply map_Forall_insert_2; [|done].
    by apply (account_of_moved db db1).
  - by apply map_Forall_delete.
  - apply map_Forall_insert_2; [|done].
    split; by apply (account_of_moved db db1).
  - by apply map_Forall_delete.
Qed.

(** Opening an account touches no entry and no account that exists. *)
Lemma open_account_rows_owned new db :
  (rows_well_formed db →
   rows_well_formed (set_accounts (insert (next_pk (accounts db)) new) db)) ∧
  (entries_owned db →
   entries_owned (set_accounts (insert (next_pk (accounts db)) new) db)).
Proof.
  split; [done|].
  assert (∀ a acc, accounts db !! a = Some acc →
            <[next_pk (accounts db):=new]> (accounts db) !! a = Some acc)
    as Hkeep.
  { intros a acc Ha. rewrite lookup_insert_ne; [done|].
    intros <-. by rewrite next_pk_fresh in Ha. }
  intros (Hoe & Hoi & Hot). split; [|split]; simpl.
  - intros k e Hk. destruct (Hoe k e Hk) as (acc & Ha & ?).
    exists acc. split; [by apply Hkeep|done].
  - intros k i Hk. destruct (Hoi k i Hk) as (acc & Ha & ?).
    exists acc. split; [by apply Hkeep|done].
  - intros k t Hk.
    destruct (Hot k t Hk) as [(fa & Hf & ?) (ta & Ht & ?)].
    split; [exists fa|exists ta]; (split; [by apply Hkeep|done]).
Qed.

Lemma reachable_rows_owned db :
  reachable db → rows_well_formed db ∧ entries_owned db.
Proof.
  induction 1 as [us cats|db us cats _ [Hwf Hown]|db user name _ [Hwf Hown]
                 |db user _ [Hwf Hown]|db m _ [Hwf Hown] _].
  - split; (split; [|split]); apply map_Forall_empty.
  - done.
  - destruct (Account_create_shape (mkAccount user name 0 false) db)
      as [Heq|Heq]; unfold AccountViewSet_create; rewrite Heq; [done|].
    split; by apply open_account_rows_owned.
  - destruct (get_external_account_shape user db) as [Heq|Heq];
      rewrite Heq; [done|].
    split; by apply open_account_rows_owned.
  - pose proof (run_mutation_step m db) as Hstep.
    split; [by apply (entry_step_rows db)|by apply (entry_step_owned db)].
Qed.

(** X9: the rows that [save] stores never violate the constraints of
    [Meta.constraints]: every stored expense, income and transfer has a
    positive amount, every stored transfer two different accounts, and
    every row carries the id it is stored under.  Each mutation keeps
    this, and it holds in every database the application reaches. *)
Theorem stored_rows_satisfy_constraints :
  (∀ m db, rows_well_formed db → rows_well_formed (run_mutation m db)) ∧
  (∀ db, reachable db → rows_well_formed db).
Proof.
  split.
  - intros m db. apply entry_step_rows, run_mutation_step.
  - intros db Hreach. by apply reachable_rows_owned.
Qed.

(** X10: every stored entry stays on accounts of its own user.  The
    account of a stored expense or income exists, belongs to the entry's
    user and is no system account; both accounts of a stored transfer
    exist and belong to the transfer's user.  Each mutation keeps this,
    and it holds in every database the application reaches. *)
Theorem stored_entries_stay_with_their_user :
  (∀ m db, entries_owned db → entries_owned (run_mutation m db)) ∧
  (∀ db, reachable db → entries_owned db).
Proof.
  split.
  - intros m db. apply entry_step_owned, run_mutation_step.
  - intros db Hreach. by apply reachable_rows_owned.
Qed.

(** ** The external account, once more *)

Lemma Account_get_found user system db row :
  Account_get user system db = inr row →
  accounts db !! row.1 = Some row.2 ∧
  acc_user row.2 = user ∧ is_system row.2 = system.
Proof.
  unfold Account_get.
  destruct (map_to_list _) as [|r [|? ?]] eqn:Hlist; try done.
  intros [= <-].
  assert (r ∈ map_to_list
            (filter (λ kv : positive * Account,
                       acc_user kv.2 = user ∧ is_system kv.2 = system)
                    (accounts db))) as Hin.
  { rewrite Hlist. apply elem_of_cons. by left. }
  apply elem_of_map_to_list' in Hin.
  apply map_lookup_filter_Some in Hin as [Hin [Hu Hs]].
  by destruct r.
Qed.

(** X11: what a successful [get_external_account] returns is stored, is
    the user's, and is a system account.  For a user who had none it is
    a new row with balance 0.00 and the name "External (System)", and the
    only change to the database; for a user who had one nothing is
    written.  Calling it again returns the same account and writes
    nothing, however the first call came to its account. *)
Theorem get_external_account_returns_the_system_account user db row db' :
  get_external_account user db = (inr row, db') →
  accounts db' !! row.1 = Some row.2 ∧
  acc_user row.2 = user ∧ is_system row.2 = true ∧
  (Account_get user true db = inl DoesNotExist →
   row = (next_pk (accounts db), external_account user) ∧
   accounts db !! row.1 = None ∧
   db' = set_accounts (insert row.1 row.2) db) ∧
  (Account_get user true db ≠ inl DoesNotExist → db' = db) ∧
  get_external_account user db' = (inr row, db').
Proof.
  intros Hcall.
  destruct (Account_get user true db) as [e|row0] eqn:Hget.
  - assert (e = DoesNotExist) as ->.
    { revert Hcall. unfold get_external_account, Account_get_or_create. run.
      rewrite Hget. by destruct e. }
    pose proof (get_external_account_idempotent _ _ _ _ Hget Hcall) as Hagain.
    assert (row = (next_pk (accounts db), external_account user) ∧
            db' = set_accounts
                    (insert (next_pk (accounts db)) (external_account user))
                    db) as [-> ->].
    { revert Hcall.
      unfold get_external_account, Account_get_or_create, Account_create.
      run. fold (external_account user). rewrite Hget.
      destruct (bool_decide (user ∈ users db) && _); simpl;
        [|by rewrite Hget].
      by intros [= <- <-]. }
    simpl. rewrite lookup_insert_eq.
    repeat split; try done. apply next_pk_fresh.
  - rewrite (get_external_account_existing _ _ _ Hget) in Hcall.
    injection Hcall as <- <-.
    destruct (Account_get_found _ _ _ _ Hget) as (Hrow & Hu & Hs).
    repeat split; try done.
    by apply get_external_account_existing.
Qed.

Lemma get_external_account_returns_the_system_account_witness :
  get_external_account 1 (get_external_account 1 db_AB).2
  = (inr (3%positive, external_account 1), (get_external_account 1 db_AB).2).
Proof.
  apply (get_external_account_returns_the_system_account 1 db_AB
           (3%positive, external_account 1)).
  vm_compute. reflexivity.
Defined.

Lemma AccountViewSet_lookup user db a acc :
  AccountViewSet_get_queryset user db !! a = Some acc ↔
  accounts db !! a = Some acc ∧ acc_user acc = user ∧ is_system acc = false.
Proof.
  unfold AccountViewSet_get_queryset, OwnedQuerysetMixin_get_queryset.
  rewrite !map_lookup_filter_Some. simpl. tauto.
Qed.

(** X12: the external account is hidden.  [get_external_account], for
    any user, leaves the accounts that [AccountViewSet] lists unchanged
    for every user, and the account it returns is in no such list. *)
Theorem external_account_is_never_listed user db :
  (∀ u, AccountViewSet_get_queryset u (get_external_account user db).2
        = AccountViewSet_get_queryset u db) ∧
  (∀ u row db', get_external_account user db = (inr row, db') →
        AccountViewSet_get_queryset u db' !! row.1 = None).
Proof.
  split.
  - intros u. destruct (get_external_account_shape user db) as [->| ->];
      [done|].
    apply map_eq. intros a. apply option_eq. intros acc.
    rewrite !AccountViewSet_lookup. simpl.
    destruct (decide (a = next_pk (accounts db))) as [->|Hne].
    + rewrite lookup_insert_eq, next_pk_fresh.
      split; [|by intros [? _]]. by intros ([= <-] & _ & ?).
    + by rewrite lookup_insert_ne.
  - intros u [k acc] db' Hcall.
    destruct (AccountViewSet_get_queryset u db' !! k) as [acc'|] eqn:Hlisted;
      [|done].
    apply AccountViewSet_lookup in Hlisted as (Hrow & _ & Hs).
    revert Hcall. unfold get_external_account, Account_get_or_create. run.
    destruct (Account_get user true db) as [e|row0] eqn:Hget.
    + destruct e; try done. unfold Account_create.
      destruct (_ && _); simpl; [|by rewrite Hget].
      intros [= <- <- <-]. simpl in Hrow.
      rewrite lookup_insert_eq in Hrow. by injection Hrow as <-.
    + intros [= -> <-].
      destruct (Account_get_found _ _ _ _ Hget) as (Hrow0 & _ & Hs0).
      simpl in *. congruence.
Qed.

(** ** The serializers *)

Ltac owner_goal :=
  first [ by intros ? ? [= <- <-] | by intros ? ? [=] ].

(** X13: [ExpenseSerializer.validate] and [IncomeSerializer.validate]
    return the attributes unchanged or raise.  When they return, the
    account the request resolves to (its own, else the edited
    instance's) belongs to the requesting user, so does the category of
    an expense, and the amount they checked is positive. *)
Theorem entry_serializers_check_owner_and_amount :
  (∀ user instance attrs r,
     ExpenseSerializer_validate user instance attrs = inr r →
     r = attrs ∧
     (∀ k a, attr_or (eattr_account attrs) instance eattr_account
             = Some (k, a) → acc_user a = user) ∧
     (∀ k c, attr_or (eattr_category attrs) instance eattr_category
             = Some (k, c) → cat_user c = user) ∧
     (∃ amount, amount_or (eattr_amount attrs) instance eattr_amount
                = Some amount ∧ 0 < amount)) ∧
  (∀ user instance attrs r,
     IncomeSerializer_validate user instance attrs = inr r →
     r = attrs ∧
     (∀ k a, attr_or (iattr_account attrs) instance iattr_account
             = Some (k, a) → acc_user a = user) ∧
     (∃ amount, amount_or (iattr_amount attrs) instance iattr_amount
                = Some amount ∧ 0 < amount)).
Proof.
  split.
  - intros user instance attrs r. unfold ExpenseSerializer_validate.
    destruct (attr_or (eattr_account attrs) instance _) as [[k a]|];
    destruct (attr_or (eattr_category attrs) instance _) as [[k' c]|];
    destruct (amount_or (eattr_amount attrs) instance _) as [amt|];
    repeat (case_bool_decide; try done);
    try destruct (Z.leb_spec amt 0); try done;
    intros [= <-];
    (split; [done|split; [owner_goal|split; [owner_goal|]]]);
    exists amt; (split; [done|lia]).
  - intros user instance attrs r. unfold IncomeSerializer_validate.
    destruct (attr_or (iattr_account attrs) instance _) as [[k a]|];
    destruct (amount_or (iattr_amount attrs) instance _) as [amt|];
    try destruct (Z.leb_spec amt 0); try done;
    repeat (case_bool_decide; try done);
    intros [= <-];
    (split; [done|split; [owner_goal|]]);
    exists amt; (split; [done|lia]).
Qed.

(** X14: a zero amount and the three serializers.  The expense and the
    income serializer read the amount with [or], so on an update a zero
    in the request gives way to the stored amount: the request is judged
    as if it carried no amount, and when that passes, the attributes
    returned still hold the zero.  On a create there is nothing to fall
    back to and the zero is refused.  [TransferSerializer] reads with a
    default and refuses a zero always. *)
Theorem zero_amount_and_the_serializers :
  (∀ user inst account category description,
     (∃ r, ExpenseSerializer_validate user (Some inst)
             (mkExpenseAttrs account category None description) = inr r) →
     ExpenseSerializer_validate user (Some inst)
       (mkExpenseAttrs account category (Some 0) description)
     = inr (mkExpenseAttrs account category (Some 0) description)) ∧
  (∀ user inst account description,
     (∃ r, IncomeSerializer_validate user (Some inst)
             (mkIncomeAttrs account None description) = inr r) →
     IncomeSerializer_validate user (Some inst)
       (mkIncomeAttrs account (Some 0) description)
     = inr (mkIncomeAttrs account (Some 0) description)) ∧
  (∀ user account category description,
     ∃ e, ExpenseSerializer_validate user None
            (mkExpenseAttrs account category (Some 0) description) = inl e) ∧
  (∀ user account description,
     ∃ e, IncomeSerializer_validate user None
            (mkIncomeAttrs account (Some 0) description) = inl e) ∧
  (∀ user instance allow_system from_acct to_acct,
     ∃ e, TransferSerializer_validate user instance allow_system
            (mkAttrs from_acct to_acct (Some 0)) = inl e).
Proof.
  split; [|split; [|split; [|split]]].
  - intros user inst account category description [r Hr]. revert Hr.
    unfold ExpenseSerializer_validate. simpl.
    destruct (attr_or account (Some inst) _) as [[k a]|];
    destruct (attr_or category (Some inst) _) as [[k' c]|];
    destruct (eattr_amount inst) as [amt|];
    repeat (case_bool_decide; try done);
    try destruct (amt <=? 0); done.
  - intros user inst account description [r Hr]. revert Hr.
    unfold IncomeSerializer_validate. simpl.
    destruct (attr_or account (Some inst) _) as [[k a]|];
    destruct (iattr_amount inst) as [amt|];
    try destruct (amt <=? 0); try done;
    repeat (case_bool_decide; try done).
  - intros user account category description.
    unfold ExpenseSerializer_validate. simpl.
    destruct account as [[k a]|]; destruct category as [[k' c]|]; simpl;
    repeat (case_bool_decide; try done); by eexists.
  - intros user account description.
    unfold IncomeSerializer_validate. simpl. by eexists.
  - intros user instance allow_system from_acct to_acct.
    unfold TransferSerializer_validate. simpl.
    destruct (match instance with None => _ | Some _ => _ end);
      by eexists.
Qed.

Lemma zero_amount_and_the_serializers_witness :
  ExpenseSerializer_validate 1
    (Some (mkExpenseAttrs (Some (1%positive, mkAccount 1 "A" 40000 false))
             (Some (1%positive, mkCategory 1 "Food")) (Some 10000)
             (Some "Lunch")))
    (mkExpenseAttrs None None (Some 0) None)
  = inr (mkExpenseAttrs None None (Some 0) None).
Proof.
  destruct zero_amount_and_the_serializers as [H _]. apply H.
  eexists. vm_compute. reflexivity.
Defined.

Lemma TransferSerializer_create_spec user allow_system attrs :
  (∃ r, TransferSerializer_validate user None allow_system attrs = inr r) ↔
  ∃ f fa t ta amount,
    attrs = mkAttrs (Some (f, fa)) (Some (t, ta)) (Some amount) ∧
    0 < amount ∧ f ≠ t ∧ acc_user fa = user ∧ acc_user ta = user ∧
    (allow_system = true ∨ (is_system fa = false ∧ is_system ta = false)).
Proof.
  destruct attrs as [[[f fa]|] [[t ta]|] [amount|]];
    unfold TransferSerializer_validate; simpl;
    try (split; [by intros [? ?]|by intros (? & ? & ? & ? & ? & ? & _)]).
  split.
  - intros [r Hr]. revert Hr.
    destruct (Z.leb_spec amount 0); [done|].
    repeat (case_bool_decide; try done).
    destruct (is_system fa) eqn:Hfs, (is_system ta) eqn:Hts,
      allow_system; simpl; try done; intros _;
      exists f, fa, t, ta, amount; repeat split; auto.
  - intros (f' & fa' & t' & ta' & amount' & [= <- <- <- <- <-] &
            Hpos & Hne & Hfu & Htu & Hsys).
    destruct (Z.leb_spec amount 0); [lia|].
    rewrite bool_decide_eq_false_2 by done.
    rewrite !bool_decide_eq_false_2 by (intros H'; by apply H').
    destruct Hsys as [->|[-> ->]]; simpl; rewrite ?andb_false_r; by eexists.
Qed.

Lemma TransferSerializer_validate_same user instance allow_system attrs r :
  TransferSerializer_validate user instance allow_system attrs = inr r →
  r = attrs.
Proof.
  unfold TransferSerializer_validate, serializer_error.
  repeat case_match; congruence.
Qed.

(** X15: what [TransferSerializer.validate] accepts on a create.  The
    request is accepted, and then returned unchanged, exactly when it
    carries both accounts and the amount, the amount is positive, the
    two accounts have different ids and belong to the requesting user,
    and either neither is a system account or the context allows system
    accounts.  In every other case it raises. *)
Theorem TransferSerializer_accepts_on_create user allow_system attrs :
  (TransferSerializer_validate user None allow_system attrs = inr attrs ↔
   ∃ f fa t ta amount,
     attrs = mkAttrs (Some (f, fa)) (Some (t, ta)) (Some amount) ∧
     0 < amount ∧ f ≠ t ∧ acc_user fa = user ∧ acc_user ta = user ∧
     (allow_system = true ∨ (is_system fa = false ∧ is_system ta = false))) ∧
  (∀ r, TransferSerializer_validate user None allow_system attrs = inr r →
        r = attrs).
Proof.
  split; [|apply TransferSerializer_validate_same].
  rewrite <- TransferSerializer_create_spec. split; [by eexists|].
  intros [r Hr].
  by rewrite <- (TransferSerializer_validate_same _ _ _ _ _ Hr) at 2.
Qed.

(** X16: a transfer out of (or into) a system account cannot be edited
    through the regular endpoint.  Whatever the request changes, as long
    as it leaves the system account in place and the context does not
    allow system accounts, [TransferSerializer.validate] refuses it. *)
Theorem system_transfer_is_not_editable user inst attrs k acc :
  is_system acc = true →
  (attr_from_account inst = Some (k, acc) ∧ attr_from_account attrs = None) ∨
  (attr_to_account inst = Some (k, acc) ∧ attr_to_account attrs = None) →
  ∃ e, TransferSerializer_validate user (Some inst) false attrs = inl e.
Proof.
  intros Hsys Hkept.
  destruct (TransferSerializer_validate user (Some inst) false attrs)
    as [e|r] eqn:Hval; [by eexists|].
  revert Hval. unfold TransferSerializer_validate. simpl.
  destruct Hkept as [[Hinst Hattr]|[Hinst Hattr]]; rewrite Hattr; simpl;
    rewrite Hinst; simpl.
  - destruct (attr_or_instance (attr_to_account attrs) (Some inst) _)
      as [[t ta]|];
    destruct (attr_or_instance (attr_amount attrs) (Some inst) _) as [amt|];
    try destruct (amt <=? 0); try done;
    repeat (case_bool_decide; try done); rewrite Hsys; done.
  - destruct (attr_or_instance (attr_from_account attrs) (Some inst) _)
      as [[f fa]|];
    destruct (attr_or_instance (attr_amount attrs) (Some inst) _) as [amt|];
    try destruct (amt <=? 0); try done;
    repeat (case_bool_decide; try done); rewrite Hsys, ?orb_true_r; done.
Qed.

(** The salary of 50000.00 stored, and a request to make it 60000.00. *)
Lemma system_transfer_is_not_editable_witness :
  ∃ e, TransferSerializer_validate 1
         (Some (mkAttrs (Some (2%positive, external_account 1))
                  (Some (1%positive, mkAccount 1 "A" 5000000 false))
                  (Some 5000000)))
         false (mkAttrs None None (Some 6000000)) = inl e.
Proof.
  apply (system_transfer_is_not_editable 1 _ _ 2%positive
           (external_account 1)).
  - reflexivity.
  - left. split; reflexivity.
Defined.

(** ** Transfers made through the views *)

(** Validation of a transfer, the other way round: what is enough for
    [full_clean] to pass. *)
Lemma Transfer_full_clean_intro self db fa ta :
  tr_user self ∈ users db →
  decimal_10_2 (tr_amount self) = true →
  Transfer_valid self db fa ta →
  Transfer_full_clean self db = inr tt.
Proof.
  intros Huser Hdigits [Hf Ht Hne Hpos Hfu Htu].
  assert (Transfer_clean_fields self db = []) as Hfields.
  { unfold Transfer_clean_fields, user_exists, fk_exists, amount_digits,
      field_error.
    rewrite Hdigits, Hf, Ht, (bool_decide_eq_true_2 _ Huser).
    by rewrite !bool_decide_eq_true_2 by eauto. }
  assert (Transfer_clean self db = inr tt) as Hclean.
  { unfold Transfer_clean, related. rewrite Hf, Ht.
    destruct (Z.leb_spec (tr_amount self) 0); [lia|].
    rewrite (bool_decide_eq_false_2 (from_account self = to_account self))
      by done.
    by rewrite !bool_decide_eq_false_2 by (intros H'; by apply H'). }
  assert (Transfer_constraints self [] = []) as Hcons.
  { unfold Transfer_constraints, check_constraint, field_error.
    rewrite !(bool_decide_eq_false_2 (Exists _ _))
      by (intros Hex; apply Exists_exists in Hex as (x & _ & Hx);
          by apply elem_of_nil in Hx).
    destruct (Z.ltb_spec 0 (tr_amount self)); [|lia].
    by rewrite bool_decide_eq_true_2. }
  unfold Transfer_full_clean, full_clean. rewrite Hclean, Hfields.
  change (finish (Transfer_constraints self []) = inr tt).
  by rewrite Hcons.
Qed.

Lemma get_external_account_ok user db row db' :
  get_external_account user db = (inr row, db') →
  accounts db' !! row.1 = Some row.2 ∧
  acc_user row.2 = user ∧ is_system row.2 = true ∧
  users db' = users db ∧ same_entries db db' ∧
  (∀ a acc, accounts db !! a = Some acc → accounts db' !! a = Some acc).
Proof.
  unfold get_external_account, Account_get_or_create. run.
  destruct (Account_get user true db) as [e|row0] eqn:Hget.
  - destruct e; try done. unfold Account_create.
    destruct (_ && _); simpl; [|by rewrite Hget].
    intros [= <- <-]. simpl. rewrite lookup_insert_eq.
    repeat split; try done.
    intros a acc Ha. rewrite lookup_insert_ne; [done|].
    intros <-. by rewrite next_pk_fresh in Ha.
  - intros [= <- <-].
    destruct (Account_get_found _ _ _ _ Hget) as (Hrow & Hu & Hs).
    repeat split; done.
Qed.

Lemma create_transfer_run user allow_system f t amount db fa ta :
  accounts db !! f = Some fa → accounts db !! t = Some ta →
  decimal_10_2 amount = true →
  0 < amount → f ≠ t → acc_user fa = user → acc_user ta = user →
  allow_system = true ∨ (is_system fa = false ∧ is_system ta = false) →
  create_transfer user allow_system f t amount db =
    (transfer ← Transfer_save (mkTransfer None user f t amount);
     mret (HTTP_201_CREATED transfer)) db.
Proof.
  intros Hf Ht Hdigits Hpos Hne Hfu Htu Hsys.
  unfold create_transfer, TransferSerializer_is_valid,
    TransferSerializer_to_internal_value. run. rewrite Hf, Ht, Hdigits.
  destruct (proj2 (TransferSerializer_create_spec user allow_system
              (mkAttrs (Some (f, fa)) (Some (t, ta)) (Some amount))))
    as [r Hr].
  { exists f, fa, t, ta, amount. done. }
  rewrite Hr. by rewrite (TransferSerializer_validate_same _ _ _ _ _ Hr).
Qed.

(** X17: the salary deposit.  For a user who exists and whose external
    account can be had, a salary of a positive amount of at most ten
    digits to an ordinary account of the user is answered with 201
    whenever the balances of the two accounts are within the twelve
    digits of the column and stay within them.  The transfer is stored,
    under an id that was not in use, from the external account to that
    account; the account gains the amount and the external account loses
    it, whether or not it holds that much. *)
Theorem salary_deposit_is_created user to_account_id amount db to_acc ext db1 :
  user ∈ users db →
  accounts db !! to_account_id = Some to_acc →
  acc_user to_acc = user → is_system to_acc = false →
  0 < amount → decimal_10_2 amount = true →
  get_external_account user db = (inr ext, db1) →
  decimal_12_2 (balance to_acc) = true →
  decimal_12_2 (balance to_acc + amount) = true →
  decimal_12_2 (balance ext.2) = true →
  decimal_12_2 (balance ext.2 - amount) = true →
  ∃ k row db',
    TransferViewSet_salary user to_account_id amount db
    = (inr (HTTP_201_CREATED row), db') ∧
    transfers db !! k = None ∧
    row = mkTransfer (Some k) user ext.1 to_account_id amount ∧
    transfers db' = <[k := row]> (transfers db) ∧
    accounts db' !! to_account_id = Some (add_balance amount to_acc) ∧
    accounts db' !! ext.1 = Some (add_balance (- amount) ext.2).
Proof.
  intros Huser Hto Hu Hs Hpos Hdigits Hext _ _ _ _.
  destruct (get_external_account_ok _ _ _ _ Hext)
    as (Hrow & Heu & Hes & Husers & (_ & _ & Htr) & Hkeep).
  pose proof (Hkeep _ _ Hto) as Hto1.
  assert (ext.1 ≠ to_account_id) as Hne.
  { intros Heq. rewrite Heq, Hto1 in Hrow. injection Hrow as Heq'.
    rewrite <- Heq' in Hes. congruence. }
  set (self := mkTransfer None user ext.1 to_account_id amount).
  assert (Transfer_full_clean self db1 = inr tt) as Hclean.
  { apply (Transfer_full_clean_intro self db1 ext.2 to_acc);
      [by rewrite Husers|done|by split]. }
  unfold TransferViewSet_salary. run. rewrite Hto.
  rewrite (bool_decide_eq_true_2 _ Hu), Hs. simpl.
  rewrite Hext.
  rewrite (create_transfer_run user true ext.1 to_account_id amount db1
             ext.2 to_acc) by auto.
  fold self. run.
  rewrite (Transfer_save_valid self db1 ext.2); [|done|by intros k|done].
  unfold short_of_funds. rewrite Hes. simpl.
  unfold Transfer_super_save. simpl. rewrite Htr.
  exists (next_pk (transfers db)). eexists _, _. split; [done|].
  split; [apply next_pk_fresh|]. split; [done|]. simpl.
  split; [by rewrite Htr|].
  unfold post_reversal. simpl. rewrite !lookup_apply_accounts. simpl.
  rewrite Hto1, Hrow. simpl.
  split; do 2 f_equal; repeat case_decide; congruence || lia.
Qed.

(** The first salary of a user: 50000.00 to A. *)
Lemma salary_deposit_is_created_witness :
  ∃ row db',
    TransferViewSet_salary 1 1 5000000 db_500
    = (inr (HTTP_201_CREATED row), db') ∧
    accounts db' !! 1%positive
    = Some (add_balance 5000000 (mkAccount 1 "A" 50000 false)) ∧
    accounts db' !! 3%positive
    = Some (add_balance (-5000000) (external_account 1)).
Proof.
  assert (1%positive ∈ users db_500) as Huser.
  { apply (bool_decide_unpack _). vm_compute. reflexivity. }
  assert (get_external_account 1 db_500
          = (inr (3%positive, external_account 1),
             (get_external_account 1 db_500).2)) as Hext.
  { vm_compute. reflexivity. }
  destruct (salary_deposit_is_created 1 1 5000000 db_500
              (mkAccount 1 "A" 50000 false)
              (3%positive, external_account 1) _
              Huser eq_refl eq_refl eq_refl eq_refl eq_refl Hext
              eq_refl eq_refl eq_refl eq_refl)
    as (k & row & db' & Hrun & _ & _ & _ & Hto & Hacc).
  exists row, db'. repeat split; assumption.
Defined.

Lemma create_transfer_not_created user allow_system f t amount db r db' :
  create_transfer user allow_system f t amount db = (r, db') →
  (∃ row, r = inr (HTTP_201_CREATED row)) ∨ db' = db.
Proof.
  unfold create_transfer, TransferSerializer_save. run.
  destruct (TransferSerializer_is_valid user allow_system f t amount db)
    as [[]|attrs]; try (intros [= <- <-]; by right).
  destruct (attr_from_account attrs) as [[? ?]|],
    (attr_to_account attrs) as [[? ?]|], (attr_amount attrs) as [?|];
    try (intros [= <- <-]; by right).
  destruct (Transfer_save _ db) as [[e|row] db2] eqn:Hsave.
  - rewrite (Transfer_save_err _ _ _ _ Hsave). intros [= <- <-]. by right.
  - intros [= <- <-]. left. by eexists.
Qed.

(** X18: a salary request that is not answered with 201 stores no
    transfer and moves no balance.  The most it has written is the
    user's external account, provisioned before the request was
    validated.  When the target is not an ordinary account of the
    requesting user the answer is 404 and nothing at all is written. *)
Theorem salary_refused_moves_nothing user to_account_id amount db r db' :
  TransferViewSet_salary user to_account_id amount db = (r, db') →
  (∀ row, r ≠ inr (HTTP_201_CREATED row)) →
  (db' = db ∨
   db' = set_accounts
           (insert (next_pk (accounts db)) (external_account user)) db) ∧
  (¬ ordinary_account_of db user to_account_id →
   r = inr HTTP_404_NOT_FOUND ∧ db' = db).
Proof.
  intros Hrun Hnot. revert Hrun. unfold TransferViewSet_salary. run.
  destruct (accounts db !! to_account_id) as [to_acc|] eqn:Hto.
  2: { intros [= <- <-]. split; [by left|done]. }
  case_bool_decide as Hu; simpl.
  2: { intros [= <- <-]. split; [by left|done]. }
  destruct (is_system to_acc) eqn:Hs; simpl.
  { intros [= <- <-]. split; [by left|done]. }
  pose proof (get_external_account_shape user db) as Hshape.
  destruct (get_external_account user db) as [[e|ext] db1]; simpl in Hshape.
  - intros [= <- <-]. split; [done|].
    intros Hbad. destruct Hbad. by exists to_acc.
  - intros Hcreate.
    destruct (create_transfer_not_created _ _ _ _ _ _ _ _ Hcreate)
      as [[row ->]| ->]; [by destruct (Hnot row)|].
    split; [done|].
    intros Hbad. destruct Hbad. by exists to_acc.
Qed.

(** A salary of 0.00: refused with 400, and the external account is
    there. *)
Lemma salary_refused_moves_nothing_witness :
  (TransferViewSet_salary 1 1 0 db_500).2
  = set_accounts (insert 3%positive (external_account 1)) db_500.
Proof.
  destruct (salary_refused_moves_nothing 1 1 0 db_500
              (inr (HTTP_400_BAD_REQUEST
                      [("amount", "Amount must be greater than 0.")]))
              (TransferViewSet_salary 1 1 0 db_500).2)
    as [[Heq|Heq] _].
  - vm_compute. reflexivity.
  - intros row Hrow. discriminate Hrow.
  - vm_compute. reflexivity.
  - exact Heq.
Defined.

(** X19: a transfer made through the regular endpoint never overdraws.
    When the answer is 201, both accounts are ordinary accounts of the
    requesting user, they differ, the amount is positive and was covered
    by the from-account, which ends at its balance less the amount, not
    below zero; the to-account ends at its balance plus the amount.  On
    any other outcome, a 400 or an exception, nothing is written. *)
Theorem regular_transfer_never_overdraws user f t amount db r db' :
  TransferViewSet_create user f t amount db = (r, db') →
  match r with
  | inr (HTTP_201_CREATED row) =>
      ∃ fa ta,
        accounts db !! f = Some fa ∧ accounts db !! t = Some ta ∧
        acc_user fa = user ∧ acc_user ta = user ∧
        is_system fa = false ∧ is_system ta = false ∧ f ≠ t ∧
        0 < amount ≤ balance fa ∧
        accounts db' !! f = Some (add_balance (- amount) fa) ∧
        accounts db' !! t = Some (add_balance amount ta)
  | _ => db' = db
  end.
Proof.
  unfold TransferViewSet_create, create_transfer,
    TransferSerializer_is_valid, TransferSerializer_to_internal_value. run.
  destruct (accounts db !! f) as [fa|] eqn:Hf; [|by intros [= <- <-]].
  destruct (accounts db !! t) as [ta|] eqn:Ht; [|by intros [= <- <-]].
  destruct (decimal_10_2 amount) eqn:Hdigits; [|by intros [= <- <-]].
  destruct (TransferSerializer_validate user None false _) as [e|r0] eqn:Hval.
  { destruct e; by intros [= <- <-]. }
  rewrite (TransferSerializer_validate_same _ _ _ _ _ Hval).
  destruct (proj1 (TransferSerializer_create_spec user false _)
              (ex_intro _ r0 Hval))
    as (f' & fa' & t' & ta' & amount' & [= <- <- <- <- <-] &
        Hpos & Hne & Hfu & Htu & [?|[Hfs Hts]]); [done|].
  unfold TransferSerializer_save. simpl.
  set (self := mkTransfer None user f t amount).
  destruct (Transfer_save self db) as [[e|row'] db2] eqn:Hsave.
  { rewrite (Transfer_save_err _ _ _ _ Hsave). by intros [= <- <-]. }
  intros [= <- <-].
  pose proof (Transfer_save_ok_clean _ _ _ _ Hsave) as Hclean.
  rewrite (Transfer_save_valid self db fa) in Hsave; [|done|by intros k|done].
  unfold short_of_funds in Hsave. simpl in Hsave. rewrite Hfs in Hsave.
  simpl in Hsave.
  destruct (Z.ltb_spec (balance fa) amount); [done|].
  injection Hsave as _ <-. exists fa, ta. simpl.
  unfold post_reversal. simpl. rewrite !lookup_apply_accounts. simpl.
  rewrite Hf, Ht. simpl.
  repeat split; try done; try lia;
    do 2 f_equal; repeat case_decide; congruence || lia.
Qed.

(** 60.00 from A, which holds 500.00, to B. *)
Lemma regular_transfer_never_overdraws_witness :
  ∃ row db', TransferViewSet_create 1 1 2 6000 db_500
             = (inr (HTTP_201_CREATED row), db') ∧
    accounts db' !! 1%positive
    = Some (add_balance (-6000) (mkAccount 1 "A" 50000 false)).
Proof.
  pose proof (regular_transfer_never_overdraws 1 1 2 6000 db_500
                (TransferViewSet_create 1 1 2 6000 db_500).1
                (TransferViewSet_create 1 1 2 6000 db_500).2) as H.
  assert ((TransferViewSet_create 1 1 2 6000 db_500).1
          = inr (HTTP_201_CREATED (mkTransfer (Some 1%positive) 1 1 2 6000)))
    as Hr by (vm_compute; reflexivity).
  rewrite Hr in H.
  destruct H as (fa & ta & Hf & _ & _ & _ & _ & _ & _ & _ & Hfrom & _).
  - vm_compute. reflexivity.
  - vm_compute in Hf. injection Hf as <-.
    eexists _, _. split; [|exact Hfrom]. vm_compute. reflexivity.
Defined.

(** ** The date helpers *)

Lemma str_split_no_sep sep s :
  sep ∉ String.list_ascii_of_string s → str_split sep s = [s].
Proof.
  induction s as [|c s IH]; simpl; [done|]. intros Hno.
  apply not_elem_of_cons in Hno as [Hne Hno].
  destruct (Ascii.eqb_spec c sep) as [->|_]; [done|].
  by rewrite IH.
Qed.

Lemma ndays_range y m : 1 ≤ m ≤ 12 → 28 ≤ ndays y m ≤ 31.
Proof.
  intros Hm. unfold ndays.
  assert (m = 1 ∨ m = 2 ∨ m = 3 ∨ m = 4 ∨ m = 5 ∨ m = 6 ∨ m = 7 ∨ m = 8 ∨
          m = 9 ∨ m = 10 ∨ m = 11 ∨ m = 12) as Hcases by lia.
  destruct_or!; subst m; simpl; destruct (isleap y); simpl; lia.
Qed.

Section date_helper_properties.
Variable py_int : string → option Z.

Lemma date_new_ok y m d r :
  date_new y m d = inr r →
  r = mkDate y m d ∧ 1 ≤ y ≤ 9999 ∧ 1 ≤ m ≤ 12 ∧ 1 ≤ d ≤ ndays y m.
Proof.
  unfold date_new. destruct (negb _); [done|].
  repeat case_bool_decide; simpl; try done. by intros [= <-].
Qed.

Lemma date_new_intro y m d :
  1 ≤ y ≤ 9999 → 1 ≤ m ≤ 12 → 1 ≤ d ≤ ndays y m →
  date_new y m d = inr (mkDate y m d).
Proof.
  intros Hy Hm Hd. pose proof (ndays_range y m Hm). unfold date_new, c_int.
  rewrite !bool_decide_eq_true_2 by lia. done.
Qed.

(** X20: [parse_start] and [parse_end] agree on which strings they
    accept, and the start they read is never after the end.  On a string
    that both accept they return the same year and month; with a day
    given they return the same date, and without one [parse_start]
    returns the first of the month and [parse_end] its last day, from
    the 28th to the 31st. *)
Theorem parse_start_is_not_after_parse_end s :
  ((∃ d, parse_start py_int s = inr d) ↔ (∃ d, parse_end py_int s = inr d)) ∧
  (∀ d1 d2,
     parse_start py_int s = inr d1 → parse_end py_int s = inr d2 →
     year d1 = year d2 ∧ month d1 = month d2 ∧ day d1 ≤ day d2 ∧
     if bool_decide (2 < length (str_split "-"%char s))%nat then d1 = d2
     else day d1 = 1 ∧ day d2 = ndays (year d2) (month d2) ∧
          28 ≤ day d2 ≤ 31).
Proof.
  unfold parse_start, parse_end, int, item, mbind, date_bind, mret, date_ret.
  destruct (str_split "-"%char s) as [|p0 [|p1 parts]]; simpl;
    [split; [split; by intros [? ?]|done]
    |destruct (py_int p0); (split; [split; by intros [? ?]|done])
    |].
  destruct (py_int p0) as [y|]; simpl;
    try (split; [split; by intros [? ?]|done]).
  destruct (py_int p1) as [m|]; simpl;
    try (split; [split; by intros [? ?]|done]).
  case_bool_decide as Hlen.
  { split; [done|]. intros d1 d2 -> [= ->]. repeat split; lia. }
  unfold monthrange. split.
  - split.
    + intros [d Hd]. apply date_new_ok in Hd as (_ & Hy & Hm & _).
      rewrite bool_decide_eq_true_2 by done. simpl.
      pose proof (ndays_range y m Hm).
      rewrite date_new_intro by lia. by eexists.
    + intros [d Hd]. case_bool_decide as Hm; [|done]. simpl in Hd.
      apply date_new_ok in Hd as (_ & Hy & _ & _).
      pose proof (ndays_range y m Hm).
      rewrite date_new_intro by lia. by eexists.
  - intros d1 d2 H1 H2. case_bool_decide as Hm; [|done]. simpl in H2.
    apply date_new_ok in H1 as (-> & _). apply date_new_ok in H2 as (-> & _).
    pose proof (ndays_range y m Hm). simpl. repeat split; lia.
Qed.

(** X21: a parameter without a dash, such as a bare year, is never read
    as a date.  Where [int] refuses the string both helpers raise its
    [ValueError]; where [int] accepts it both raise [IndexError] at the
    missing month, which is no [ValueError]. *)
Theorem parameter_without_a_dash s :
  "-"%char ∉ String.list_ascii_of_string s →
  parse_start py_int s
  = inl (match py_int s with
         | Some _ => Date_IndexError
         | None => Date_ValueError
         end) ∧
  parse_end py_int s
  = inl (match py_int s with
         | Some _ => Date_IndexError
         | None => Date_ValueError
         end).
Proof.
  intros Hno.
  unfold parse_start, parse_end, int, item, mbind, date_bind, mret, date_ret.
  rewrite (str_split_no_sep _ _ Hno). simpl.
  by destruct (py_int s).
Qed.

End date_helper_properties.

(** February of a leap year: from the 1st to the 29th. *)
Lemma parse_start_is_not_after_parse_end_witness :
  parse_start int_of_digits "2024-02" = inr (mkDate 2024 2 1) ∧
  parse_end int_of_digits "2024-02" = inr (mkDate 2024 2 29) ∧
  day (mkDate 2024 2 1) ≤ day (mkDate 2024 2 29).
Proof.
  assert (parse_start int_of_digits "2024-02" = inr (mkDate 2024 2 1))
    as H1 by (vm_compute; reflexivity).
  assert (parse_end int_of_digits "2024-02" = inr (mkDate 2024 2 29))
    as H2 by (vm_compute; reflexivity).
  destruct (parse_start_is_not_after_parse_end int_of_digits "2024-02")
    as [_ Hle].
  destruct (Hle _ _ H1 H2) as (_ & _ & Hday & _).
  repeat split; assumption.
Defined.

(** A bare year. *)
Lemma parameter_without_a_dash_witness :
  parse_start int_of_digits "2024" = inl Date_IndexError ∧
  parse_end int_of_digits "2024" = inl Date_IndexError.
Proof.
  apply (parameter_without_a_dash int_of_digits "2024").
  apply (bool_decide_unpack _). vm_compute. reflexivity.
Defined.

(** ** Worked examples of the further properties *)

(** An expense of 25.00 on A, created and deleted again. *)
Lemma entry_created_then_deleted_witness :
  Expense_delete (mkExpense (Some 1%positive) 1 1 1 2500 "Tea")
    (Expense_save (mkExpense None 1 1 1 2500 "Tea") db_500).2
  = (inr tt, db_500).
Proof.
  destruct entry_created_then_deleted as [H _].
  apply (H (mkExpense None 1 1 1 2500 "Tea") db_500).
  - reflexivity.
  - vm_compute. reflexivity.
Defined.

(** An expense of 600.00 on A, which holds 500.00: A ends at -100.00. *)
Lemma new_entry_is_saved_without_funds_check_witness :
  ∃ row db',
    Expense_save (mkExpense None 1 1 1 60000 "Rent") db_500 = (inr row, db') ∧
    accounts db' !! 1%positive = Some (mkAccount 1 "A" (-10000) false).
Proof.
  destruct new_entry_is_saved_without_funds_check as [H _].
  destruct (H (mkExpense None 1 1 1 60000 "Rent") db_500
              (mkAccount 1 "A" 50000 false))
    as (k & row & db' & Hsave & _ & _ & _ & Hacc & _).
  - vm_compute. reflexivity.
  - reflexivity.
  - reflexivity.
  - reflexivity.
  - reflexivity.
  - exists row, db'. split; [exact Hsave|]. exact Hacc.
Defined.

(** An edit of transfer 1 in a database that stores no transfer. *)
Lemma save_without_stored_row_witness :
  Transfer_save update1000 db_AB = (inl DoesNotExist, db_AB).
Proof.
  destruct save_without_stored_row as (_ & _ & H).
  apply (H update1000 1%positive db_AB).
  - vm_compute. reflexivity.
  - reflexivity.
  - reflexivity.
Defined.

(** Deleting the transfer of 300.00 before it was saved. *)
Lemma delete_of_unsaved_instance_witness :
  Transfer_delete transfer300 db_AB = (inl DoesNotExist, db_AB).
Proof.
  destruct delete_of_unsaved_instance as (_ & _ & H).
  apply (H transfer300 db_AB). reflexivity.
Defined.

(** A second copy of an expense of 100.00 whose row is gone: A, at
    500.00, is credited another 100.00. *)
Lemma delete_of_deleted_entry_moves_balance_again_witness :
  ∃ db',
    Expense_delete (mkExpense (Some 1%positive) 1 1 1 10000 "Lunch") db_500
    = (inr tt, db') ∧
    accounts db' !! 1%positive = Some (mkAccount 1 "A" 60000 false).
Proof.
  destruct delete_of_deleted_entry_moves_balance_again as [H _].
  destruct (H (mkExpense (Some 1%positive) 1 1 1 10000 "Lunch") 1%positive
              db_500)
    as (db' & Hdel & _ & Hacc).
  - reflexivity.
  - reflexivity.
  - exists db'. split; [exact Hdel|]. rewrite Hacc. reflexivity.
Defined.

(** The transfer of 300.00 from A to B: both rows are locked. *)
Lemma Transfer_save_outcomes_witness :
  size (select_for_update_in 1 2 (accounts db_AB)) = 2%nat.
Proof.
  destruct (Transfer_save_outcomes transfer300 db_AB) as [_ H].
  - apply (bool_decide_unpack _). vm_compute. reflexivity.
  - apply (bool_decide_unpack _). vm_compute. reflexivity.
  - apply (bool_decide_unpack _). vm_compute. reflexivity.
  - apply H. vm_compute. reflexivity.
Defined.

(** The first account of a new user, and a first income of 10.00 on
    it. *)
Lemma stored_rows_satisfy_constraints_witness :
  rows_well_formed
    (run_mutation (SaveIncome (mkIncome None 1 1 1000 "Gift"))
       (AccountViewSet_create 1 "A" (mkDB {[ 1%positive ]} ∅ ∅ ∅ ∅ ∅)).2).
Proof.
  destruct stored_rows_satisfy_constraints as [_ H].
  apply H. apply reachable_mutation; [|exact I].
  apply reachable_account. apply reachable_start.
Defined.

(** The same, and a transfer of 10.00 refused for want of a second
    account. *)
Lemma stored_entries_stay_with_their_user_witness :
  entries_owned
    (run_mutation (SaveTransfer (mkTransfer None 1 1 2 1000))
       (run_mutation (SaveIncome (mkIncome None 1 1 1000 "Gift"))
          (AccountViewSet_create 1 "A" (mkDB {[ 1%positive ]} ∅ ∅ ∅ ∅ ∅)).2)).
Proof.
  destruct stored_entries_stay_with_their_user as [_ H].
  apply H. do 2 (apply reachable_mutation; [|exact I]).
  apply reachable_account. apply reachable_start.
Defined.

(** The external account of user 1 in [db_500] is account 3, and the
    list of user 1 does not show it. *)
Lemma external_account_is_never_listed_witness :
  AccountViewSet_get_queryset 1 (get_external_account 1 db_500).2
  !! 3%positive = None.
Proof.
  destruct (external_account_is_never_listed 1 db_500) as [_ H].
  apply (H 1%positive (3%positive, external_account 1)).
  vm_compute. reflexivity.
Defined.

(** An expense request of user 1 on an account of user 1. *)
Lemma entry_serializers_check_owner_and_amount_witness :
  ∃ amount,
    amount_or (Some 2500) (None : option ExpenseAttrs) eattr_amount
    = Some amount ∧ 0 < amount.
Proof.
  destruct entry_serializers_check_owner_and_amount as [H _].
  destruct (H 1%positive None
              (mkExpenseAttrs (Some (1%positive, mkAccount 1 "A" 50000 false))
                 (Some (1%positive, mkCategory 1 "Food")) (Some 2500)
                 (Some "Tea"))
              (mkExpenseAttrs (Some (1%positive, mkAccount 1 "A" 50000 false))
                 (Some (1%positive, mkCategory 1 "Food")) (Some 2500)
                 (Some "Tea")))
    as (_ & _ & _ & Hamount).
  - vm_compute. reflexivity.
  - exact Hamount.
Defined.

(** 60.00 from A to B, both of user 1, is accepted. *)
Lemma TransferSerializer_accepts_on_create_witness :
  TransferSerializer_validate 1 None false
    (mkAttrs (Some (1%positive, mkAccount 1 "A" 50000 false))
             (Some (2%positive, mkAccount 1 "B" 0 false)) (Some 6000))
  = inr (mkAttrs (Some (1%positive, mkAccount 1 "A" 50000 false))
                 (Some (2%positive, mkAccount 1 "B" 0 false)) (Some 6000)).
Proof.
  apply TransferSerializer_accepts_on_create.
  eexists _, _, _, _, _. split; [reflexivity|].
  repeat split; try reflexivity; try lia; auto.
Defined.
